(** * real_robots: the local evaluation helper ([real_robots/evaluate.py])

    A shallow embedding of [build_score_object] (the score aggregator) and
    of [evaluate] (the two-phase orchestrator), with the properties of the
    evaluation protocol proved over them.

    Conventions of the embedding.
    - In the model of a run, scores and rewards are exact rationals
      ([Qc]) and numpy's [nan], which [np.mean] returns on an empty
      sequence, is a value of its own ([NaN]).  This idealises the code's
      binary64 floats: there is no rounding and no overflow.  What is
      proved over it is the structure of a run and of the aggregation;
      where rounding decides, the aggregator is embedded once more over
      binary64 floats ([Binary64]).
    - The ledger [scores] is a Python dict that [add_scores] mutates and
      [build_score_object] receives by reference: it lives in a store, and
      both functions are written in a small monad over that store.
    - The environment and the controller are black boxes: a [World] with a
      handler [perform] that answers each call or raises.  The orchestrator
      records every call it issues, with its answer, in a trace.
    - The two [while not done] loops may never end: they carry fuel. *)

From Stdlib Require Import QArith Qcanon.
From Stdlib Require Import PrimFloat.
From stdpp Require Import gmap strings list fin_maps numbers.

Open Scope Qc_scope.

(** ** Numbers *)

(** A Python number as [build_score_object] sees it, idealised: an exact
    rational, or numpy's [nan].  The code's numbers are binary64 floats,
    which round, overflow to [inf] and may come in as [nan] or [inf] from
    the environment; none of this is in [num] (see [Binary64]). *)
Inductive num : Type :=
| Fin (q : Qc)
| NaN.

Definition num_add (a b : num) : num :=
  match a, b with
  | Fin x, Fin y => Fin (x + y)
  | _, _ => NaN
  end.

(** Division by a non-zero machine integer ([total_score /= len(challenges)]). *)
Definition num_div (a : num) (n : nat) : num :=
  match a with
  | Fin x => Fin (x / Qc_of_Z (Z.of_nat n))
  | NaN => NaN
  end.

Definition Qc_sum (l : list Qc) : Qc := foldr Qcplus 0 l.

(** The arithmetic mean of a non-empty sequence, in exact arithmetic:
    [np.mean] without its rounding. *)
Definition arithmetic_mean (l : list Qc) : Qc :=
  Qc_sum l / Qc_of_Z (Z.of_nat (length l)).

(** [np.mean]: the arithmetic mean, and [nan] on an empty sequence. *)
Definition np_mean (l : list Qc) : num :=
  match l with
  | [] => NaN
  | _ :: _ => Fin (arithmetic_mean l)
  end.

(** ** The score ledger and its store monad *)

Module Ledger.

(** [scores]: difficulty label -> the scores recorded for it, in order. *)
Abbreviation t := (gmap string (list Qc)).

(** A computation over the ledger: it may raise [KeyError] ([None]) and
    hands back the ledger as it left it. *)
Definition D (A : Type) : Type := t -> option A * t.

Definition ret {A} (a : A) : D A := fun l => (Some a, l).

Definition bind {A B} (m : D A) (f : A -> D B) : D B :=
  fun l =>
    match m l with
    | (Some a, l') => f a l'
    | (None, l') => (None, l')
    end.

(** [key in scores.keys()] *)
Definition contains (key : string) : D bool :=
  fun l => (Some (bool_decide (is_Some (l !! key))), l).

(** [scores[key]] *)
Definition getitem (key : string) : D (list Qc) :=
  fun l => (l !! key, l).

(** [scores[key] = v] *)
Definition setitem (key : string) (v : list Qc) : D unit :=
  fun l => (Some tt, <[key := v]> l).

(** [scores[key] += v]: reads the list, extends it, stores it back. *)
Definition iadd (key : string) (v : list Qc) : D unit :=
  fun l =>
    match l !! key with
    | Some old => (Some tt, <[key := old ++ v]> l)
    | None => (None, l)
    end.

End Ledger.

Declare Scope ledger_scope.
Delimit Scope ledger_scope with ledger.
Notation "x <- m ;; k" := (Ledger.bind m (fun x => k))
  (at level 20, m at level 99, k at level 200) : ledger_scope.
Notation "' pat <- m ;; k" :=
  (Ledger.bind m (fun x => match x with pat => k end))
  (at level 20, pat pattern, m at level 99, k at level 200) : ledger_scope.

(** ** [build_score_object] *)

(** The score object: a dict from field name to number. *)
Abbreviation ScoreObject := (gmap string num).

Definition challenges : list string := ["2D"; "2.5D"; "3D"]%string.

(** ["score_{}".format(key)] *)
Definition score_field (key : string) : string := ("score_" ++ key)%string.

(** The body of [for key in challenges], threading the two locals the loop
    updates. *)
Fixpoint build_score_loop (keys : list string) (total_score : num)
    (score_object : ScoreObject) : Ledger.D (num * ScoreObject) :=
  match keys with
  | [] => Ledger.ret (total_score, score_object)
  | key :: keys' =>
      (present <- Ledger.contains key ;;
       '(results, challenge_score) <-
          (if present : bool
           then (results <- Ledger.getitem key ;;
                 Ledger.ret (results, np_mean results))
           else Ledger.ret ([], Fin 0)) ;;
       let total_score := num_add total_score challenge_score in
       let score_object := <[score_field key := challenge_score]> score_object in
       build_score_loop keys' total_score score_object)%ledger
  end.

Definition build_score_object : Ledger.D ScoreObject :=
  (let total_score := Fin 0 in
   '(total_score, score_object) <- build_score_loop challenges total_score ∅ ;;
   let total_score := num_div total_score (length challenges) in
   let score_object := <["score_total"%string := total_score]> score_object in
   Ledger.ret score_object)%ledger.

(** [add_scores], the closure of [evaluate] that appends to the ledger. *)
Definition add_scores (challenge : string) (score : Qc) : Ledger.D unit :=
  (present <- Ledger.contains challenge ;;
   if present : bool
   then Ledger.iadd challenge [score]
   else Ledger.setitem challenge [score])%ledger.

(** The score [build_score_object] computes for one label. *)
Definition challenge_score (scores : Ledger.t) (key : string) : num :=
  match scores !! key with
  | Some results => np_mean results
  | None => Fin 0
  end.

(** The total [build_score_object] computes: the running sum over the
    three labels, from 0, divided by their number. *)
Definition total_score (scores : Ledger.t) : num :=
  num_div (num_add (num_add (num_add (Fin 0)
             (challenge_score scores "2D"))
             (challenge_score scores "2.5D"))
             (challenge_score scores "3D")) 3.

(** A sequence of trial results as the ledger sees it: each one is appended
    by [add_scores] and, when [snapshot] is set, aggregated at once, as
    [evaluate] does after every trial for its progress bar. *)
Fixpoint record_results (snapshot : bool) (results : list (string * Qc))
    : Ledger.D unit :=
  match results with
  | [] => Ledger.ret tt
  | (challenge, score) :: rest =>
      (_ <- add_scores challenge score ;;
       _ <- (if snapshot
             then (_ <- build_score_object ;; Ledger.ret tt)
             else Ledger.ret tt) ;;
       record_results snapshot rest)%ledger
  end.

(** [build_score_object] called twice in a row on the same ledger. *)
Definition build_score_object_twice : Ledger.D (ScoreObject * ScoreObject) :=
  (first <- build_score_object ;;
   second <- build_score_object ;;
   Ledger.ret (first, second))%ledger.

(** ** Run configuration, exceptions, the evaluation-state record *)

(** [intrinsic_timesteps] is documented as "int, bool". *)
Inductive budget : Type :=
| BInt (n : Z)
| BBool (b : bool).

(** Python truthiness: [not 0] and [not False] hold. *)
Definition truthy (v : budget) : bool :=
  match v with
  | BInt n => negb (n =? 0)%Z
  | BBool b => b
  end.

(** [v > 0]; a bool compares as the integer it is ([True > 0]). *)
Definition positive_budget (v : budget) : bool :=
  match v with
  | BInt n => (0 <? n)%Z
  | BBool b => b
  end.

(** The [Controller] argument is a class; all [evaluate] asks of the class
    itself is [issubclass(Controller, BasePolicy)]. *)
Record ControllerClass : Type := { issubclass_BasePolicy : bool }.

Inductive exn : Type :=
| Exception (msg : string)
| KeyError (key : string).

Definition not_a_subclass_message : string :=
  "Supplied Controller is not a Sub-Class of real_robots.policy.BasePolicy . Please ensure that the supplied controller class is derived from real_robots.policy.BasePolicy , as described in the example here at: https://github.com/AIcrowd/real_robots#usage".

(** The values held by the [evaluation_state] dict literal. *)
Inductive ev_value : Type :=
| VStr (s : string)
| VBudget (v : budget)
| VInt (n : Z)
| VDict (d : list (string * Z)).

Abbreviation EvaluationState := (list (string * ev_value)).

(** The dict literal of lines 107-122, in source order. *)
Definition initial_evaluation_state (intrinsic_timesteps : budget)
    (extrinsic_timesteps extrinsic_trials : Z) : EvaluationState :=
  [ ("state", VStr "PENDING");
    ("max_intrinsic_timesteps", VBudget intrinsic_timesteps);
    ("max_extrinsic_timesteps", VInt extrinsic_timesteps);
    ("current_intrinsic_timestep", VInt 0);
    ("max_extrinsic_trials", VInt extrinsic_trials);
    ("num_extrinsic_trials_complete", VInt 0);
    ("progress_in_current_extrinsic_trial", VInt 0);
    ("score", VDict [ ("score", 0); ("score_2D", 0); ("score_2.5D", 0);
                      ("score_3D", 0); ("score_total", 0) ]%Z) ]%string.

(** Dict lookup by key. *)
Fixpoint dict_get {V} (key : string) (d : list (string * V)) : option V :=
  match d with
  | [] => None
  | (k, v) :: d' => if String.eqb k key then Some v else dict_get key d'
  end.

(** ** Progress display *)

Inductive Bar : Type :=
| intrinsic_phase_progress_bar
| extrinsic_phase_progress_bar
| extrinsic_trial_progress_bar (k : nat).

Inductive Display : Type :=
| tqdm (bar : Bar)
| bar_write (bar : Bar) (line : string)
| bar_write_score (bar : Bar) (score_object : ScoreObject)
| bar_update (bar : Bar)
| bar_close (bar : Bar)
| bar_set_postfix (bar : Bar) (score_object : ScoreObject)
| print (line : string).

Definition rule : string := "######################################################".

(** ** The orchestrator's monad *)

Inductive outcome (A : Type) : Type :=
| Returned (a : A)
| Raised (e : exn)
| OutOfFuel.
Arguments Returned {A} a.
Arguments Raised {A} e.
Arguments OutOfFuel {A}.

Section Orchestrator.

Context {World Obs Action : Type}.

(** Every call [evaluate] makes on the environment or on the controller,
    indexed by the type of its answer.
    Modelled from the spec: [end_extrinsic_phase], the phase-end hook of
    the controller's capability set (spec 4.1); [real_robots/policy.py],
    where [BasePolicy] declares the hooks, is not among the sources. *)
Inductive Call : Type -> Type :=
| gym_make (id : string) : Call unit
| env_set_goals_dataset_path (path : string) : Call unit
| env_render (mode : string) : Call unit
| new_controller : Call unit
| env_set_intrinsic_timesteps (v : budget) : Call unit
| env_set_extrinsic_timesteps (v : Z) : Call unit
| env_reset : Call Obs
| env_step (action : Action) : Call (Obs * Qc * bool)
| env_set_goal : Call unit
| env_evaluateGoal : Call (string * Qc)
| controller_step (observation : Obs) (reward : Qc) (done : bool) : Call Action
| start_intrinsic_phase : Call unit
| end_intrinsic_phase : Call unit
| start_extrinsic_phase : Call unit
| start_extrinsic_trial : Call unit
| end_extrinsic_trial : Call unit
| end_extrinsic_phase : Call unit.

(** What happened, in order: a call with its answer ([inl]: it raised),
    or a line of progress display. *)
Inductive Event : Type :=
| Ev {X : Type} (c : Call X) (answer : exn + X)
| Out (d : Display).

(** The collaborators' behaviour. *)
Variable perform : forall X : Type, Call X -> World -> (exn + X) * World.

Record State : Type := mkState {
  world : World;
  trace : list Event;
  scores : Ledger.t;
  evaluation_state : option EvaluationState
}.

Definition M (A : Type) : Type := State -> outcome A * State.

Definition ret {A} (a : A) : M A := fun s => (Returned a, s).

Definition bind {A B} (m : M A) (f : A -> M B) : M B :=
  fun s =>
    match m s with
    | (Returned a, s') => f a s'
    | (Raised e, s') => (Raised e, s')
    | (OutOfFuel, s') => (OutOfFuel, s')
    end.

Definition raise {A} (e : exn) : M A := fun s => (Raised e, s).

Definition out_of_fuel {A} : M A := fun s => (OutOfFuel, s).

Definition record (ev : Event) (s : State) : State :=
  mkState (world s) (trace s ++ [ev]) (scores s) (evaluation_state s).

(** Issue a call: the world answers, the trace keeps the call and its
    answer, an exception propagates. *)
Definition call {X} (c : Call X) : M X :=
  fun s =>
    let '(answer, w) := perform X c (world s) in
    let s' := record (Ev c answer)
                (mkState w (trace s) (scores s) (evaluation_state s)) in
    match answer with
    | inr x => (Returned x, s')
    | inl e => (Raised e, s')
    end.

Definition emit (d : Display) : M unit :=
  fun s => (Returned tt, record (Out d) s).

(** Run a ledger computation on the run's ledger. *)
Definition on_scores {A} (d : Ledger.D A) : M A :=
  fun s =>
    let '(r, l) := d (scores s) in
    let s' := mkState (world s) (trace s) l (evaluation_state s) in
    match r with
    | Some a => (Returned a, s')
    | None => (Raised (KeyError ""), s')
    end.

(** [scores = {}] *)
Definition new_scores : M unit :=
  fun s => (Returned tt, mkState (world s) (trace s) ∅ (evaluation_state s)).

(** [evaluation_state = {...}] *)
Definition set_evaluation_state (v : EvaluationState) : M unit :=
  fun s => (Returned tt, mkState (world s) (trace s) (scores s) (Some v)).

End Orchestrator.

Arguments Call : clear implicits.
Arguments Event : clear implicits.
Arguments State : clear implicits.
Arguments M : clear implicits.

Declare Scope run_scope.
Delimit Scope run_scope with run.
Notation "x <- m ;; k" := (bind m (fun x => k))
  (at level 20, m at level 99, k at level 200) : run_scope.
Notation "' pat <- m ;; k" :=
  (bind m (fun x => match x with pat => k end))
  (at level 20, pat pattern, m at level 99, k at level 200) : run_scope.
Notation "m ;;; k" := (bind m (fun _ => k))
  (at level 99, k at level 200, right associativity) : run_scope.

(** ** [evaluate] *)

Section Evaluate.

Context {World Obs Action : Type}.
Variable perform : forall X : Type, Call Obs Action X -> World -> (exn + X) * World.

Local Open Scope run_scope.

Abbreviation call' := (call perform).
Abbreviation Run := (M World Obs Action).

(** The banner a progress bar writes around a phase. *)
Definition banner (bar : Bar) (title : string) : Run unit :=
  emit (bar_write bar rule) ;;;
  emit (bar_write bar title) ;;;
  emit (bar_write bar rule).

(** Lines 160-166: the intrinsic [while not done] loop. *)
Fixpoint intrinsic_loop (fuel : nat) (observation : Obs) (reward : Qc)
    (done : bool) (steps : nat) {struct fuel} : Run (Obs * Qc * bool * nat) :=
  if done then ret (observation, reward, done, steps)
  else
    match fuel with
    | O => out_of_fuel
    | S fuel' =>
        action <- call' (controller_step observation reward done) ;;
        '(observation, reward, done) <- call' (env_step action) ;;
        let steps := (steps + 1)%nat in
        emit (bar_update intrinsic_phase_progress_bar) ;;;
        intrinsic_loop fuel' observation reward done steps
    end.

(** Lines 138-177: the intrinsic phase, or the warning that it is skipped. *)
Definition intrinsic_phase (fuel : nat) (intrinsic_timesteps : budget) : Run unit :=
  if positive_budget intrinsic_timesteps then
    observation <- call' env_reset ;;
    let reward := 0 in
    let done := false in
    emit (tqdm intrinsic_phase_progress_bar) ;;;
    banner intrinsic_phase_progress_bar "# Intrinsic Phase Initiated" ;;;
    let steps := O in
    call' start_intrinsic_phase ;;;
    _ <- intrinsic_loop fuel observation reward done steps ;;
    banner intrinsic_phase_progress_bar "# Intrinsic Phase Complete" ;;;
    call' end_intrinsic_phase
  else
    emit (print "[WARNING] Skipping Intrinsic Phase as intrinsic_timesteps = 0 or False").

(** Lines 215-218: the [while not done] loop of one extrinsic trial. *)
Fixpoint extrinsic_loop (fuel : nat) (k : nat) (observation : Obs) (reward : Qc)
    (done : bool) {struct fuel} : Run (Obs * Qc * bool) :=
  if done then ret (observation, reward, done)
  else
    match fuel with
    | O => out_of_fuel
    | S fuel' =>
        action <- call' (controller_step observation reward done) ;;
        '(observation, reward, done) <- call' (env_step action) ;;
        emit (bar_update (extrinsic_trial_progress_bar k)) ;;;
        extrinsic_loop fuel' k observation reward done
    end.

(** Lines 199-231: the body of [for k in range(extrinsic_trials)]. *)
Definition extrinsic_trial (fuel : nat) (k : nat) : Run unit :=
  observation <- call' env_reset ;;
  let reward := 0 in
  let done := false in
  call' env_set_goal ;;;
  call' start_extrinsic_trial ;;;
  emit (tqdm (extrinsic_trial_progress_bar k)) ;;;
  _ <- extrinsic_loop fuel k observation reward done ;;
  call' end_extrinsic_trial ;;;
  emit (bar_close (extrinsic_trial_progress_bar k)) ;;;
  emit (bar_update extrinsic_phase_progress_bar) ;;;
  '(challenge, score) <- call' env_evaluateGoal ;;
  on_scores (add_scores challenge score) ;;;
  score_object <- on_scores build_score_object ;;
  emit (bar_set_postfix extrinsic_phase_progress_bar score_object).

(** [for k in ks: body(k)] *)
Fixpoint for_each (ks : list nat) (body : nat -> Run unit) : Run unit :=
  match ks with
  | [] => ret tt
  | k :: ks' => body k ;;; for_each ks' body
  end.

(** [range(n)]; empty when [n] is not positive. *)
Definition range (n : Z) : list nat := seq 0 (Z.to_nat n).

(** Lines 182-245: the extrinsic phase and the result. *)
Definition extrinsic_phase (fuel : nat) (extrinsic_trials : Z) : Run ScoreObject :=
  emit (tqdm extrinsic_phase_progress_bar) ;;;
  banner extrinsic_phase_progress_bar "# Extrinsic Phase Initiated" ;;;
  call' start_extrinsic_phase ;;;
  for_each (range extrinsic_trials) (extrinsic_trial fuel) ;;;
  banner extrinsic_phase_progress_bar "# Extrinsic Phase Complete" ;;;
  score_object <- on_scores build_score_object ;;
  emit (bar_write_score extrinsic_phase_progress_bar score_object) ;;;
  call' end_extrinsic_trial ;;;
  on_scores build_score_object.

(** Lines 63-82: the environment, the contract check, the controller. *)
Definition setup (Controller : ControllerClass) (intrinsic_timesteps : budget)
    (extrinsic_timesteps : Z) (visualize : bool) (goals_dataset_path : string)
    : Run unit :=
  call' (gym_make "REALRobot-v0") ;;;
  call' (env_set_goals_dataset_path goals_dataset_path) ;;;
  (if visualize then call' (env_render "human") else ret tt) ;;;
  (if negb (issubclass_BasePolicy Controller)
   then raise (Exception not_a_subclass_message)
   else ret tt) ;;;
  call' new_controller ;;;
  call' (env_set_intrinsic_timesteps intrinsic_timesteps) ;;;
  call' (env_set_extrinsic_timesteps extrinsic_timesteps).

Definition evaluate (fuel : nat) (Controller : ControllerClass)
    (intrinsic_timesteps : budget) (extrinsic_timesteps : Z)
    (extrinsic_trials : Z) (visualize : bool) (goals_dataset_path : string)
    : Run ScoreObject :=
  setup Controller intrinsic_timesteps extrinsic_timesteps visualize
    goals_dataset_path ;;;
  set_evaluation_state
    (initial_evaluation_state intrinsic_timesteps extrinsic_timesteps
       extrinsic_trials) ;;;
  new_scores ;;;
  let intrinsic_timesteps :=
    if negb (truthy intrinsic_timesteps) then BInt 0 else intrinsic_timesteps in
  intrinsic_phase fuel intrinsic_timesteps ;;;
  extrinsic_phase fuel extrinsic_trials.

(** A run starts with nothing recorded. *)
Definition initial_state (w : World) : State World Obs Action :=
  mkState w [] ∅ None.

End Evaluate.

(** ** Reading a run *)

Section Reading.

Context {World Obs Action : Type}.

Abbreviation Ev' := (Event Obs Action).
Abbreviation St := (State World Obs Action).

(** Weakest precondition of a run: [Q] on return, [E] when the run stops
    on an exception ([Some e]) or for lack of fuel ([None]). *)
Definition wp {A} (m : M World Obs Action A) (Q : A -> St -> Prop)
    (E : option exn -> St -> Prop) (s : St) : Prop :=
  match m s with
  | (Returned a, s') => Q a s'
  | (Raised e, s') => E (Some e) s'
  | (OutOfFuel, s') => E None s'
  end.

(** The exception an event ended in, if any. *)
Definition raised (ev : Ev') : option exn :=
  match ev with
  | Ev _ (inl e) => Some e
  | _ => None
  end.

(** No call of the trace has raised. *)
Definition quiet (tr : list Ev') : Prop := Forall (fun ev => raised ev = None) tr.

(** The last call of the trace raised [e], and no call before it raised. *)
Definition stopped_by (e : exn) (tr : list Ev') : Prop :=
  ∃ tr0 ev, tr = tr0 ++ [ev] ∧ raised ev = Some e ∧ quiet tr0.

(** The state of a run that goes on: nothing has raised, and the
    [evaluation_state] variable holds [v]. *)
Definition going (v : option EvaluationState) (s : St) : Prop :=
  quiet (trace s) ∧ evaluation_state s = v.

(** The state of a run that stopped: on an exception, either the last
    call raised it or it is the orchestrator's own contract violation;
    the [evaluation_state] variable holds [v]. *)
Definition halted (v : option EvaluationState) (o : option exn) (s : St) : Prop :=
  match o with
  | Some e =>
      stopped_by e (trace s)
      ∨ (quiet (trace s) ∧ e = Exception not_a_subclass_message)
  | None => quiet (trace s)
  end ∧ evaluation_state s = v.

(** The protocol calls, without their arguments and answers. *)
Inductive Hook : Set :=
| h_reset | h_set_goal | h_evaluateGoal
| h_start_intrinsic_phase | h_end_intrinsic_phase
| h_start_extrinsic_phase | h_start_extrinsic_trial
| h_end_extrinsic_trial | h_end_extrinsic_phase.

#[export] Instance Hook_eq_dec : EqDecision Hook.
Proof. solve_decision. Defined.

(** How many times a protocol call occurs. *)
Definition occurrences (h : Hook) (hs : list Hook) : nat :=
  length (filter (fun x => x = h) hs).

Definition hook_of_call {X} (c : Call Obs Action X) : option Hook :=
  match c with
  | env_reset => Some h_reset
  | env_set_goal => Some h_set_goal
  | env_evaluateGoal => Some h_evaluateGoal
  | start_intrinsic_phase => Some h_start_intrinsic_phase
  | end_intrinsic_phase => Some h_end_intrinsic_phase
  | start_extrinsic_phase => Some h_start_extrinsic_phase
  | start_extrinsic_trial => Some h_start_extrinsic_trial
  | end_extrinsic_trial => Some h_end_extrinsic_trial
  | end_extrinsic_phase => Some h_end_extrinsic_phase
  | _ => None
  end.

Definition hook_of (ev : Ev') : option Hook :=
  match ev with
  | Ev c _ => hook_of_call c
  | Out _ => None
  end.

(** The protocol calls of a trace, in order. *)
Definition hooks (tr : list Ev') : list Hook := omap hook_of tr.

Definition is_controller_step (ev : Ev') : bool :=
  match ev with
  | Ev (controller_step _ _ _) _ => true
  | _ => false
  end.

Definition is_env_step (ev : Ev') : bool :=
  match ev with
  | Ev (env_step _) _ => true
  | _ => false
  end.

Definition count (p : Ev' -> bool) (tr : list Ev') : nat :=
  length (filter (fun ev => p ev = true) tr).

(** What [controller.step] may be handed: [fresh] says that the
    environment was reset and the controller has not stepped since.  A
    step must see [done = False], and [reward = 0] when [fresh]. *)
Definition step_monitor (fresh : bool) (ev : Ev') : option bool :=
  match ev with
  | Ev env_reset _ => Some true
  | Ev (controller_step _ reward done) _ =>
      if negb done && (negb fresh || bool_decide (reward = 0))
      then Some false else None
  | _ => Some fresh
  end.

(** Run a monitor over a trace; [None] once it has rejected an event. *)
Definition run_monitor {S} (step : S -> Ev' -> option S) (tr : list Ev')
    (start : option S) : option S :=
  fold_left (fun st ev => st ≫= fun x => step x ev) tr start.

Definition monitor : list Ev' -> option bool -> option bool :=
  run_monitor step_monitor.

(** Is the event a protocol call or a step of the interaction loop? *)
Definition is_interaction (ev : Ev') : bool :=
  match hook_of ev with
  | Some _ => true
  | None => is_controller_step ev || is_env_step ev
  end.

Definition begins_extrinsic_phase (ev : Ev') : bool :=
  match ev with
  | Ev start_extrinsic_phase _ => true
  | _ => false
  end.

(** The skipped intrinsic phase: until [start_extrinsic_phase] is called
    ([began]), the run may only set up and display. *)
Definition skip_monitor (began : bool) (ev : Ev') : option bool :=
  if began then Some true
  else if begins_extrinsic_phase ev then Some true
  else if is_interaction ev then None
  else Some false.

(** The skip monitor has accepted the trace; [began] is its verdict on
    whether the extrinsic phase has begun. *)
Definition before_extrinsic (began : bool) (s : St) : Prop :=
  run_monitor skip_monitor (trace s) (Some false) = Some began.

Definition tolerated (s : St) : Prop := ∃ began, before_extrinsic began s.

(** Lines 177-194: what a run that skips the intrinsic phase does between
    set-up and the first trial: it prints the warning, opens the progress
    bar of the extrinsic phase with its banner and calls
    [start_extrinsic_phase], which answers or raises. *)
Definition skip_events (answer : exn + unit) : list Ev' :=
  [Out (print "[WARNING] Skipping Intrinsic Phase as intrinsic_timesteps = 0 or False");
   Out (tqdm extrinsic_phase_progress_bar);
   Out (bar_write extrinsic_phase_progress_bar rule);
   Out (bar_write extrinsic_phase_progress_bar "# Extrinsic Phase Initiated");
   Out (bar_write extrinsic_phase_progress_bar rule);
   Ev start_extrinsic_phase answer].

(** The calls that make and configure the environment before the
    contract check. *)
Definition is_environment_setup (ev : Ev') : bool :=
  match ev with
  | Ev (gym_make _) _ => true
  | Ev (env_set_goals_dataset_path _) _ => true
  | Ev (env_render _) _ => true
  | _ => false
  end.

(** The run has failed before the controller exists: it stopped on an
    exception, the contract violation unless a call raised, and has made
    at most the three set-up calls. *)
Definition rejected (o : option exn) (s : St) : Prop :=
  (∃ e, o = Some e)
  ∧ (quiet (trace s) → o = Some (Exception not_a_subclass_message))
  ∧ Forall (fun ev => is_environment_setup ev = true) (trace s)
  ∧ (length (trace s) ≤ 3)%nat.

(** One trial, and the whole run, as protocol calls. *)
Definition trial_hooks : list Hook :=
  [h_reset; h_set_goal; h_start_extrinsic_trial; h_end_extrinsic_trial;
   h_evaluateGoal].

Definition intrinsic_hooks (intrinsic_timesteps : budget) : list Hook :=
  if positive_budget intrinsic_timesteps
  then [h_reset; h_start_intrinsic_phase; h_end_intrinsic_phase]
  else [].

Definition extrinsic_hooks (extrinsic_trials : Z) : list Hook :=
  [h_start_extrinsic_phase]
  ++ concat (replicate (Z.to_nat extrinsic_trials) trial_hooks)
  ++ [h_end_extrinsic_trial].

(** The protocol calls of a state's trace are [hs]. *)
Definition hooked (hs : list Hook) (s : St) : Prop := hooks (trace s) = hs.

(** The monitor accepts the trace of a state. *)
Definition accepted (s : St) : Prop :=
  ∃ fresh, monitor (trace s) (Some false) = Some fresh.

(** ... and would accept a [controller.step] handed this [reward]. *)
Definition ready (s : St) (reward : Qc) : Prop :=
  ∃ fresh, monitor (trace s) (Some false) = Some fresh
           ∧ (fresh = true → reward = 0).

End Reading.

(** ** The behaviour of the collaborators *)

Section Behaviour.

Context {World Obs Action : Type}.
Variable perform : forall X : Type, Call Obs Action X -> World -> (exn + X) * World.

(** From world [w], with the controller handed [observation] and
    [reward], the environment first signals [done] at its [k]-th step:
    the controller and the environment answer [k] rounds of
    [controller.step] / [env.step], and [done] is false in all but the
    last. *)
Fixpoint done_after (k : nat) (w : World) (observation : Obs) (reward : Qc)
    : Prop :=
  match k with
  | O => False
  | S k' =>
      ∃ action w1 observation' reward' done' w2,
        perform _ (controller_step observation reward false) w = (inr action, w1)
        ∧ perform _ (env_step action) w1
          = (inr (observation', reward', done'), w2)
        ∧ if done' : bool then k' = O
          else done_after k' w2 observation' reward'
  end.

End Behaviour.

(** ** A small world to run [evaluate] on *)

Module Toy.

(** Every episode lasts [horizon] steps and every step is rewarded 1;
    every trial is a "2D" trial that scores 1; the controller's [step]
    raises at the episode and step [fault] names, if any.  Observations
    and actions are plain numbers. *)
Record world : Type := mkWorld {
  horizon : nat;
  fault : option (nat * nat);
  episode : nat;
  clock : nat
}.

Definition perform (X : Type) (c : Call nat nat X) (w : world)
    : (exn + X) * world :=
  match c in Call _ _ X return (exn + X) * world with
  | env_reset =>
      (inr O, mkWorld (horizon w) (fault w) (S (episode w)) O)
  | env_step _ =>
      let clock' := S (clock w) in
      (inr (clock', 1, bool_decide (horizon w ≤ clock')%nat),
       mkWorld (horizon w) (fault w) (episode w) clock')
  | controller_step _ _ _ =>
      if bool_decide (fault w = Some (episode w, clock w))
      then (inl (Exception "controller failure"), w)
      else (inr O, w)
  | env_evaluateGoal => (inr ("2D"%string, 1), w)
  | _ => (inr tt, w)
  end.

Definition start (horizon : nat) (fault : option (nat * nat)) : world :=
  mkWorld horizon fault O O.

Definition BasePolicy_subclass : ControllerClass :=
  {| issubclass_BasePolicy := true |}.

Definition not_a_policy : ControllerClass :=
  {| issubclass_BasePolicy := false |}.

(** [evaluate] on this world, from a fresh state. *)
Abbreviation run fuel Controller intrinsic_timesteps extrinsic_trials w :=
  (evaluate perform fuel Controller intrinsic_timesteps 2000 extrinsic_trials
     false "./goals.npy.npz" (initial_state w)).

End Toy.

(** ** The runs the examples use *)

(** Two trials of two steps each, no intrinsic phase, nothing fails. *)
Abbreviation two_trials :=
  (Toy.run 10%nat Toy.BasePolicy_subclass (BInt 0) 2 (Toy.start 2 None)).

(** The set-up of that run alone. *)
Abbreviation two_trials_setup :=
  (setup Toy.perform Toy.BasePolicy_subclass (BInt 0) 2000 false
     "./goals.npy.npz" (initial_state (Toy.start 2 None))).

(** Three trials asked for; the controller's [step] raises at the second
    step of the second trial. *)
Abbreviation failing_second_trial :=
  (Toy.run 10%nat Toy.BasePolicy_subclass (BInt 0) 3
     (Toy.start 2 (Some (2%nat, 1%nat)))).

(** The same two trials, with a controller class that is no policy. *)
Abbreviation no_policy :=
  (Toy.run 10%nat Toy.not_a_policy (BInt 0) 2 (Toy.start 2 None)).

(** No trial at all. *)
Abbreviation zero_trials :=
  (Toy.run 10%nat Toy.BasePolicy_subclass (BInt 0) 0 (Toy.start 2 None)).

(** An intrinsic phase with a budget of 5, then one trial. *)
Abbreviation with_intrinsic_phase :=
  (Toy.run 10%nat Toy.BasePolicy_subclass (BInt 5) 1 (Toy.start 2 None)).

(** Three trial results: two for "2D", one for "3D". *)
Definition three_results : list (string * Qc) :=
  [("2D"%string, 1); ("3D"%string, Qc_of_Z 3); ("2D"%string, Qc_of_Z 3)].

(** The scores of the trials that carry the label [key], in trial order. *)
Definition scores_under (key : string) (trials : list (string * Qc)) : list Qc :=
  snd <$> filter (fun t => t.1 = key) trials.

(** ** Further readings of a run *)

Section Flow.

Context {World Obs Action : Type}.

(** The (difficulty, score) pair an [evaluateGoal] call answered. *)
Definition goal_of (ev : Event Obs Action) : option (string * Qc) :=
  match ev with
  | Ev c answer =>
      match c in Call _ _ X return exn + X -> option (string * Qc) with
      | env_evaluateGoal =>
          fun answer => match answer with inr p => Some p | inl _ => None end
      | _ => fun _ => None
      end answer
  | Out _ => None
  end.

(** The pairs the trials of a trace were scored with, in trial order. *)
Definition goals (tr : list (Event Obs Action)) : list (string * Qc) :=
  omap goal_of tr.

(** The ledger [add_scores] builds from the empty ledger. *)
Definition ledger_of (results : list (string * Qc)) : Ledger.t :=
  (record_results false results ∅).2.

(** [n] trials have been scored, and the run's ledger holds exactly their
    results. *)
Definition tallied (n : nat) (s : State World Obs Action) : Prop :=
  length (goals (trace s)) = n ∧ scores s = ledger_of (goals (trace s)).

(** What an answer of the environment leaves in the loop variables
    [observation] and [reward]: a reset gives its observation and the
    reward 0 the code assigns, a step gives its observation and reward. *)
Definition feedback_of (ev : Event Obs Action) : option (Obs * Qc) :=
  match ev with
  | Ev c answer =>
      match c in Call _ _ X return exn + X -> option (Obs * Qc) with
      | env_reset =>
          fun answer => match answer with inr o => Some (o, 0) | inl _ => None end
      | env_step _ =>
          fun answer =>
            match answer with inr (o, r, _) => Some (o, r) | inl _ => None end
      | _ => fun _ => None
      end answer
  | Out _ => None
  end.

(** The action a [controller.step] call answered. *)
Definition action_of (ev : Event Obs Action) : option Action :=
  match ev with
  | Ev c answer =>
      match c in Call _ _ X return exn + X -> option Action with
      | controller_step _ _ _ =>
          fun answer => match answer with inr a => Some a | inl _ => None end
      | _ => fun _ => None
      end answer
  | Out _ => None
  end.

Definition last_feedback (tr : list (Event Obs Action)) : option (Obs * Qc) :=
  list.last (omap feedback_of tr).

Definition last_action (tr : list (Event Obs Action)) : option Action :=
  list.last (omap action_of tr).

(** An event is fed by what came before it: a [controller.step] is handed
    the last observation and reward of the environment, an [env.step] the
    last action of the controller. *)
Definition fed (before : list (Event Obs Action)) (ev : Event Obs Action) : Prop :=
  match ev with
  | Ev (controller_step observation reward _) _ =>
      last_feedback before = Some (observation, reward)
  | Ev (env_step action) _ => last_action before = Some action
  | _ => True
  end.

Definition flows (tr : list (Event Obs Action)) : Prop :=
  ∀ before ev after, tr = before ++ ev :: after → fed before ev.

(** The trace flows, and the loop variables hold the last feedback. *)
Definition primed (observation : Obs) (reward : Qc)
    (s : State World Obs Action) : Prop :=
  flows (trace s) ∧ last_feedback (trace s) = Some (observation, reward).

(** The set-up calls, with their arguments and without their answers. *)
Inductive SetupCall : Type :=
| s_gym_make (id : string)
| s_set_goals_dataset_path (path : string)
| s_render (mode : string)
| s_new_controller
| s_set_intrinsic_timesteps (v : budget)
| s_set_extrinsic_timesteps (v : Z).

Definition setup_call_of (ev : Event Obs Action) : option SetupCall :=
  match ev with
  | Ev (gym_make id) _ => Some (s_gym_make id)
  | Ev (env_set_goals_dataset_path path) _ => Some (s_set_goals_dataset_path path)
  | Ev (env_render mode) _ => Some (s_render mode)
  | Ev new_controller _ => Some s_new_controller
  | Ev (env_set_intrinsic_timesteps v) _ => Some (s_set_intrinsic_timesteps v)
  | Ev (env_set_extrinsic_timesteps v) _ => Some (s_set_extrinsic_timesteps v)
  | _ => None
  end.

Definition setup_calls (tr : list (Event Obs Action)) : list SetupCall :=
  omap setup_call_of tr.

(** The set-up calls of a state's trace are [cs]. *)
Definition configured (cs : list SetupCall) (s : State World Obs Action) : Prop :=
  setup_calls (trace s) = cs.

End Flow.

Section Endless.

Context {World Obs Action : Type}.
Variable perform : forall X : Type, Call Obs Action X -> World -> (exn + X) * World.

(** In the worlds of [I] the environment never signals [done]: whatever
    the controller is handed, it answers with an action, the environment
    answers that action with [done = False], and the world stays in [I]. *)
Definition never_done (I : World -> Prop) : Prop :=
  ∀ w observation reward,
    I w →
    ∃ action w1 observation' reward' w2,
      perform _ (controller_step observation reward false) w = (inr action, w1)
      ∧ perform _ (env_step action) w1 = (inr (observation', reward', false), w2)
      ∧ I w2.

End Endless.

(** ** A world that never ends an episode *)

Module Forever.

(** The controller always answers, the environment never signals [done];
    the world counts the steps. *)
Definition perform (X : Type) (c : Call nat nat X) (w : nat) : (exn + X) * nat :=
  match c in Call _ _ X return (exn + X) * nat with
  | env_reset => (inr O, w)
  | env_step _ => (inr (S w, 1, false), S w)
  | controller_step _ _ _ => (inr O, w)
  | env_evaluateGoal => (inr ("2D"%string, 1), w)
  | _ => (inr tt, w)
  end.

End Forever.

(** ** The aggregator over binary64 scores *)

(** The scores the environment hands out are Python floats, and numpy adds
    and divides them with rounding.  [Binary64] embeds [add_scores] and
    [build_score_object] over the kernel's binary64 floats, for the
    properties that rounding decides.  [np.mean] belongs to numpy, which
    is not among the sources: the aggregator takes it as a parameter, and
    [mean_in_order] is what it computes on the short arrays of the
    examples. *)
Module Binary64.

(** [scores] with the scores as Python has them: binary64 floats. *)
Abbreviation t := (gmap string (list float)).

Abbreviation ScoreObject := (gmap string float).

(** A machine integer as a float ([len(challenges)], the length of an
    array): exact below 2^53. *)
Fixpoint of_nat (n : nat) : float :=
  match n with
  | O => 0%float
  | S n' => (of_nat n' + 1)%float
  end.

(** The mean of a short array as numpy computes it: the elements are added
    in order, then the sum is divided by the length; [nan] (0/0) on an
    empty array. *)
Definition mean_in_order (a : list float) : float :=
  (fold_left PrimFloat.add a 0 / of_nat (length a))%float.

Section Aggregator.

(** [np.mean] on a list of floats. *)
Variable np_mean : list float -> float.

(** Lines 19-24: the score of one label. *)
Definition challenge_score (scores : t) (key : string) : float :=
  match scores !! key with
  | Some results => np_mean results
  | None => 0%float
  end.

(** Lines 18-26: the body of [for key in challenges]. *)
Fixpoint build_score_loop (scores : t) (keys : list string) (total_score : float)
    (score_object : ScoreObject) : float * ScoreObject :=
  match keys with
  | [] => (total_score, score_object)
  | key :: keys' =>
      let score := challenge_score scores key in
      build_score_loop scores keys' (total_score + score)%float
        (<[score_field key := score]> score_object)
  end.

(** Lines 13-30.  Python's integer 0, the start of [total_score] and the
    score of a label without key, is the float 0 here: the two are equal
    and add alike. *)
Definition build_score_object (scores : t) : ScoreObject :=
  let '(total_score, score_object) := build_score_loop scores challenges 0%float ∅ in
  let total_score := (total_score / of_nat (length challenges))%float in
  <["score_total"%string := total_score]> score_object.

End Aggregator.

(** Lines 128-132: [add_scores], on the ledger it closes over. *)
Definition add_scores (challenge : string) (score : float) (scores : t) : t :=
  match scores !! challenge with
  | Some results => <[challenge := results ++ [score]]> scores
  | None => <[challenge := [score]]> scores
  end.

(** The ledger after the trials of a run: [add_scores] once per trial, in
    trial order. *)
Definition record_results (trials : list (string * float)) (scores : t) : t :=
  fold_left (fun scores trial => add_scores trial.1 trial.2 scores) trials scores.

End Binary64.

(** The binary64 floats nearest to 0.1, 0.2 and 0.3. *)
Abbreviation one_tenth := 0x1.999999999999ap-4%float.
Abbreviation two_tenths := 0x1.999999999999ap-3%float.
Abbreviation three_tenths := 0x1.3333333333333p-2%float.

(** * Properties of the score aggregator *)

Section Aggregator.

Implicit Types (scores : Ledger.t) (key : string) (results : list Qc).

Lemma contains_spec key scores :
  Ledger.contains key scores
  = (Some (if scores !! key is Some _ then true else false), scores).
Proof. unfold Ledger.contains. by destruct (scores !! key). Qed.

(** One turn of the [for] loop. *)
Lemma build_score_loop_cons key keys total_score (score_object : ScoreObject) scores :
  build_score_loop (key :: keys) total_score score_object scores
  = build_score_loop keys
      (num_add total_score (challenge_score scores key))
      (<[score_field key := challenge_score scores key]> score_object) scores.
Proof.
  cbn [build_score_loop]. unfold Ledger.bind at 1. rewrite contains_spec.
  unfold challenge_score, Ledger.bind, Ledger.getitem, Ledger.ret.
  by destruct (scores !! key) as [results|] eqn:E; rewrite ?E.
Qed.

(** The whole function, as a closed expression of the ledger. *)
Lemma build_score_object_eq scores :
  build_score_object scores
  = (Some (<["score_total"%string := total_score scores]>
           (<["score_3D"%string := challenge_score scores "3D"]>
           (<["score_2.5D"%string := challenge_score scores "2.5D"]>
           (<["score_2D"%string := challenge_score scores "2D"]> ∅)))),
     scores).
Proof.
  unfold build_score_object, challenges, Ledger.bind.
  by rewrite !build_score_loop_cons.
Qed.

Lemma num_add_0_l (a : num) : num_add (Fin 0) a = a.
Proof. destruct a; cbn; [by rewrite Qcplus_0_l | done]. Qed.

End Aggregator.

Section AggregatorArithmetic.

Implicit Types (scores : Ledger.t) (key : string) (results : list Qc).

Lemma Qc_three_nonzero : Qc_of_Z (Z.of_nat 3) ≠ 0.
Proof. discriminate. Qed.

Lemma arithmetic_mean_singleton (v : Qc) : arithmetic_mean [v] = v.
Proof.
  unfold arithmetic_mean, Qc_sum. cbn [foldr length].
  change (Z.of_nat 1) with 1%Z. rewrite Z2Qc_inj_1. field. discriminate.
Qed.

Lemma all_zero_total :
  num_div (num_add (num_add (num_add (Fin 0) (Fin 0)) (Fin 0)) (Fin 0)) 3 = Fin 0.
Proof. cbn. f_equal. apply Qc_is_canon. reflexivity. Qed.

End AggregatorArithmetic.

Section AggregatorEffects.

Implicit Types (scores : Ledger.t) (key : string) (results : list Qc).

Lemma add_scores_eq key (v : Qc) scores :
  add_scores key v scores
  = (Some tt, <[key := default [] (scores !! key) ++ [v]]> scores).
Proof.
  unfold add_scores, Ledger.bind. rewrite contains_spec.
  unfold Ledger.iadd, Ledger.setitem.
  by destruct (scores !! key) as [old|] eqn:E; rewrite ?E.
Qed.

Lemma record_results_snapshot (trials : list (string * Qc)) scores :
  record_results true trials scores = record_results false trials scores.
Proof.
  revert scores. induction trials as [|[challenge score] rest IH]; intros scores.
  - done.
  - cbn [record_results]. unfold Ledger.bind at 1 4.
    rewrite add_scores_eq. unfold Ledger.bind at 1 3.
    unfold Ledger.bind at 1. rewrite build_score_object_eq.
    unfold Ledger.ret at 1 2. apply IH.
Qed.

(** [add_scores] never leaves an empty sequence in the ledger, so the
    ledger of a run holds a label exactly when it holds scores for it. *)
Lemma add_scores_nonempty key (v : Qc) scores :
  (∀ k results, scores !! k = Some results → results ≠ []) →
  ∀ k results, (add_scores key v scores).2 !! k = Some results → results ≠ [].
Proof.
  intros Hinv k results. rewrite add_scores_eq. cbn [snd].
  destruct (decide (key = k)) as [->|Hne].
  - rewrite lookup_insert_eq. intros [= <-]. by destruct (default [] _).
  - rewrite lookup_insert_ne by done. apply Hinv.
Qed.

(** A label whose sequence is empty, which [add_scores] never produces,
    gets numpy's [nan]. *)
Lemma challenge_score_empty_sequence key scores :
  scores !! key = Some [] → challenge_score scores key = NaN.
Proof. unfold challenge_score. by intros ->. Qed.

(** C7. [build_score_object] leaves the ledger it is given as it found
    it, and returns; called twice in a row on the same ledger it returns
    the same score object both times; and the snapshots [evaluate] takes
    after every trial change neither the ledger later trials append to
    nor any later aggregation. *)
Theorem build_score_object_pure scores :
  (build_score_object scores).2 = scores
  ∧ (∃ so, build_score_object scores = (Some so, scores)
           ∧ build_score_object_twice scores = (Some (so, so), scores))
  ∧ (∀ trials : list (string * Qc),
       (_ <- record_results true trials ;; build_score_object)%ledger scores
       = (_ <- record_results false trials ;; build_score_object)%ledger scores).
Proof.
  split; [by rewrite build_score_object_eq|]. split.
  - eexists. split; [apply build_score_object_eq|].
    unfold build_score_object_twice, Ledger.bind.
    by rewrite !build_score_object_eq.
  - intros trials. unfold Ledger.bind. by rewrite record_results_snapshot.
Qed.

End AggregatorEffects.

Section Coverage.

Implicit Types (scores : Ledger.t) (key : string) (results : list Qc).

Local Ltac label_cases H :=
  apply list_elem_of_In in H; cbn in H;
  destruct H as [<-|[<-|[<-|[]]]].

Local Ltac field_names :=
  repeat match goal with
  | |- context [score_field ?k] =>
      let v := eval vm_compute in (score_field k) in
      change (score_field k) with v
  end.

Lemma challenge_score_absent scores key :
  scores !! key = None → challenge_score scores key = Fin 0.
Proof. unfold challenge_score. by intros ->. Qed.

Lemma challenge_score_first key (v : Qc) scores :
  challenge_score (<[key := [v]]> scores) key = Fin v.
Proof.
  unfold challenge_score. rewrite lookup_insert_eq. cbn.
  by rewrite arithmetic_mean_singleton.
Qed.

Lemma challenge_score_other key key' results scores :
  key' ≠ key →
  challenge_score (<[key := results]> scores) key' = challenge_score scores key'.
Proof. intros Hne. unfold challenge_score. by rewrite lookup_insert_ne. Qed.

(** Replacing one summand 0 by [v] moves the mean over three by [v / 3]. *)
Lemma total_shift (a b c a' b' c' : num) (v : Qc) :
  (a = Fin 0 ∧ a' = Fin v ∧ b' = b ∧ c' = c)
  ∨ (b = Fin 0 ∧ b' = Fin v ∧ a' = a ∧ c' = c)
  ∨ (c = Fin 0 ∧ c' = Fin v ∧ a' = a ∧ b' = b) →
  num_div (num_add (num_add (num_add (Fin 0) a') b') c') 3
  = num_add (num_div (num_add (num_add (num_add (Fin 0) a) b) c) 3)
      (Fin (v / Qc_of_Z (Z.of_nat 3))).
Proof.
  pose proof Qc_three_nonzero as H3.
  intros [(-> & -> & -> & ->)|[(-> & -> & -> & ->)|(-> & -> & -> & ->)]];
    repeat match goal with x : num |- _ => destruct x end; cbn; try done;
    f_equal; by field.
Qed.

(** In exact arithmetic: when the ledger has no entry for one of the
    three labels, appending a single result [v] under that label moves
    that label's score from 0 to [v], moves [score_total] by [v / 3], and
    leaves the other two per-label scores as they were. *)
Lemma add_scores_first_result_exact scores key (v : Qc) :
  key ∈ challenges →
  scores !! key = None →
  ∃ (so so' : ScoreObject) (scores' : Ledger.t),
    build_score_object scores = (Some so, scores)
    ∧ add_scores key v scores = (Some tt, scores')
    ∧ build_score_object scores' = (Some so', scores')
    ∧ so !! score_field key = Some (Fin 0)
    ∧ so' !! score_field key = Some (Fin v)
    ∧ (∀ key', key' ∈ challenges → key' ≠ key →
         so' !! score_field key' = so !! score_field key')
    ∧ (∃ total total' : num,
         so !! "score_total"%string = Some total
         ∧ so' !! "score_total"%string = Some total'
         ∧ total' = num_add total (Fin (v / Qc_of_Z 3))
         ∧ (∀ t, total = Fin t →
              ∃ t', total' = Fin t' ∧ t' - t = v / Qc_of_Z 3)).
Proof.
  intros Hkey Hnone.
  eexists _, _, _.
  split; [apply build_score_object_eq|].
  split; [apply add_scores_eq|].
  split; [apply build_score_object_eq|].
  rewrite Hnone. cbn [default app].
  pose proof (challenge_score_absent _ _ Hnone) as Hzero.
  pose proof (challenge_score_first key v scores) as Hfirst.
  assert (Hother : ∀ key', key' ≠ key →
    challenge_score (<[key := [v]]> scores) key' = challenge_score scores key')
    by (intros; by apply challenge_score_other).
  set (scores' := <[key := [v]]> scores) in *. clearbody scores'.
  split; [label_cases Hkey; field_names; rewrite Hzero; by simplify_map_eq|].
  split; [label_cases Hkey; field_names; rewrite Hfirst; by simplify_map_eq|].
  split.
  - intros key' Hkey' Hne.
    label_cases Hkey'; field_names; simplify_map_eq; by rewrite Hother.
  - exists (total_score scores), (total_score scores').
    split; [by simplify_map_eq|]. split; [by simplify_map_eq|].
    assert (Hshift :
      total_score scores' = num_add (total_score scores) (Fin (v / Qc_of_Z 3))).
    { apply total_shift.
      label_cases Hkey; rewrite Hzero, Hfirst, !Hother by done; tauto. }
    split; [exact Hshift|].
    intros t Ht. rewrite Hshift, Ht. cbn. eexists. split; [done|]. ring.
Qed.

End Coverage.

Example toy_run_hooks :
  hooks (trace (Toy.run 10 Toy.BasePolicy_subclass (BInt 0) 2 (Toy.start 2 None)).2)
  = [h_start_extrinsic_phase;
     h_reset; h_set_goal; h_start_extrinsic_trial; h_end_extrinsic_trial; h_evaluateGoal;
     h_reset; h_set_goal; h_start_extrinsic_trial; h_end_extrinsic_trial; h_evaluateGoal;
     h_end_extrinsic_trial].
Proof. vm_compute. reflexivity. Qed.

(** * The run logic *)

Section RunLogic.

Context {World Obs Action : Type}.
Variable perform : forall X : Type, Call Obs Action X -> World -> (exn + X) * World.

Implicit Types (s : State World Obs Action) (E : option exn -> State World Obs Action -> Prop).

Lemma wp_run {A} (m : M World Obs Action A) Q E s :
  wp m Q E s →
  match (m s).1 with
  | Returned a => Q a (m s).2
  | Raised e => E (Some e) (m s).2
  | OutOfFuel => E None (m s).2
  end.
Proof. unfold wp. by destruct (m s) as [[a|e|] s']. Qed.

Lemma wp_mono {A} (m : M World Obs Action A) (Q Q' : A -> _ -> Prop) E E' s :
  wp m Q E s →
  (∀ a s', Q a s' → Q' a s') →
  (∀ o s', E o s' → E' o s') →
  wp m Q' E' s.
Proof. unfold wp. destruct (m s) as [[a|e|] s']; auto. Qed.

Lemma wp_ret {A} (a : A) (Q : A -> _ -> Prop) E s : Q a s → wp (ret a) Q E s.
Proof. done. Qed.

Lemma wp_bind {A B} (m : M World Obs Action A) (f : A -> M World Obs Action B)
    (Q : B -> _ -> Prop) E s :
  wp m (fun a s' => wp (f a) Q E s') E s → wp (bind m f) Q E s.
Proof. unfold wp, bind. by destruct (m s) as [[a|e|] s']. Qed.

Lemma wp_raise {A} (e : exn) (Q : A -> _ -> Prop) E s :
  E (Some e) s → wp (raise e) Q E s.
Proof. done. Qed.

Lemma wp_out_of_fuel {A} (Q : A -> _ -> Prop) E s :
  E None s → wp out_of_fuel Q E s.
Proof. done. Qed.

Lemma wp_emit (d : Display) (Q : unit -> _ -> Prop) E s :
  Q tt (mkState (world s) (trace s ++ [Out d]) (scores s) (evaluation_state s)) →
  wp (emit d) Q E s.
Proof. done. Qed.

Lemma wp_call {X} (c : Call Obs Action X) (Q : X -> _ -> Prop) E s :
  (∀ answer w,
     perform X c (world s) = (answer, w) →
     let s' := mkState w (trace s ++ [Ev c answer]) (scores s)
                 (evaluation_state s) in
     match answer with
     | inr x => Q x s'
     | inl e => E (Some e) s'
     end) →
  wp (call perform c) Q E s.
Proof.
  intros H. unfold wp, call.
  destruct (perform X c (world s)) as [answer w] eqn:Hp.
  specialize (H answer w eq_refl). by destruct answer.
Qed.

Lemma wp_new_scores (Q : unit -> _ -> Prop) E s :
  Q tt (mkState (world s) (trace s) ∅ (evaluation_state s)) →
  wp new_scores Q E s.
Proof. done. Qed.

Lemma wp_set_evaluation_state v (Q : unit -> _ -> Prop) E s :
  Q tt (mkState (world s) (trace s) (scores s) (Some v)) →
  wp (set_evaluation_state v) Q E s.
Proof. done. Qed.

Lemma wp_add_scores challenge score (Q : unit -> _ -> Prop) E s :
  Q tt (mkState (world s) (trace s)
          (<[challenge := default [] (scores s !! challenge) ++ [score]]> (scores s))
          (evaluation_state s)) →
  wp (on_scores (add_scores challenge score)) Q E s.
Proof. unfold wp, on_scores. by rewrite add_scores_eq. Qed.

Lemma wp_build_score_object (Q : ScoreObject -> _ -> Prop) E s :
  (∀ so, build_score_object (scores s) = (Some so, scores s) →
         Q so (mkState (world s) (trace s) (scores s) (evaluation_state s))) →
  wp (on_scores build_score_object) Q E s.
Proof.
  intros H. unfold wp, on_scores.
  specialize (H _ (build_score_object_eq (scores s))).
  by rewrite build_score_object_eq.
Qed.

Lemma wp_banner bar title (Q : unit -> _ -> Prop) E s :
  Q tt (mkState (world s)
          (((trace s ++ [Out (bar_write bar rule)])
              ++ [Out (bar_write bar title)])
              ++ [Out (bar_write bar rule)])
          (scores s) (evaluation_state s)) →
  wp (banner bar title) Q E s.
Proof. done. Qed.

End RunLogic.

(** Symbolic execution of a run, one construct at a time. *)
Ltac wp_simpl := cbn [trace world scores evaluation_state] in *.

Ltac wp_step :=
  lazymatch goal with
  | |- wp (bind _ _) _ _ _ => apply wp_bind
  | |- wp (ret _) _ _ _ => apply wp_ret
  | |- wp (raise _) _ _ _ => apply wp_raise
  | |- wp out_of_fuel _ _ _ => apply wp_out_of_fuel
  | |- wp (emit _) _ _ _ => apply wp_emit
  | |- wp (banner _ _) _ _ _ => apply wp_banner
  | |- wp new_scores _ _ _ => apply wp_new_scores
  | |- wp (set_evaluation_state _) _ _ _ => apply wp_set_evaluation_state
  | |- wp (on_scores (add_scores _ _)) _ _ _ => apply wp_add_scores
  | |- wp (on_scores build_score_object) _ _ _ =>
      apply wp_build_score_object; intros ? _
  | |- wp (call _ _) _ _ _ =>
      let answer := fresh "answer" in
      let w := fresh "w" in
      apply wp_call; intros answer w _; cbv zeta; destruct answer
  | |- wp (if ?b then _ else _) _ _ _ => destruct b eqn:?
  | |- wp (match ?x with (_, _) => _ end) _ _ _ => destruct x
  end; wp_simpl.

(** Run as far as the rules reach, closing the side goals with [tac]. *)
Tactic Notation "wp_walk" tactic3(tac) := repeat (wp_step; try (solve [tac])).

Section StepArguments.

Context {World Obs Action : Type}.
Variable perform : forall X : Type, Call Obs Action X -> World -> (exn + X) * World.

Implicit Types (s : State World Obs Action) (tr : list (Event Obs Action)).

Lemma run_monitor_app {S} (step : S -> _ -> option S) tr tr' st :
  run_monitor step (tr ++ tr') st = run_monitor step tr' (run_monitor step tr st).
Proof. apply fold_left_app. Qed.

Lemma run_monitor_None {S} (step : S -> _ -> option S) tr :
  run_monitor step tr None = None.
Proof. induction tr as [|ev tr IH]; [done | apply IH]. Qed.

Lemma run_monitor_cons {S} (step : S -> _ -> option S) ev tr x :
  run_monitor step (ev :: tr) (Some x) = run_monitor step tr (step x ev).
Proof. done. Qed.

Lemma run_monitor_snoc {S} (step : S -> _ -> option S) tr ev start x x' :
  run_monitor step tr start = Some x →
  step x ev = Some x' →
  run_monitor step (tr ++ [ev]) start = Some x'.
Proof. intros H1 H2. rewrite run_monitor_app, H1. cbn. by rewrite H2. Qed.

Lemma run_monitor_prefix {S} (step : S -> _ -> option S) tr tr' st x :
  run_monitor step (tr ++ tr') st = Some x → ∃ y, run_monitor step tr st = Some y.
Proof.
  rewrite run_monitor_app. destruct (run_monitor step tr st) as [y|]; [eauto|].
  by rewrite run_monitor_None.
Qed.

Lemma monitor_app tr tr' st : monitor (tr ++ tr') st = monitor tr' (monitor tr st).
Proof. apply run_monitor_app. Qed.

Lemma monitor_None tr : monitor tr None = None.
Proof. apply run_monitor_None. Qed.

Lemma monitor_cons ev tr fresh :
  monitor (ev :: tr) (Some fresh) = monitor tr (step_monitor fresh ev).
Proof. done. Qed.

Lemma monitor_snoc tr ev fresh fresh' :
  monitor tr (Some false) = Some fresh →
  step_monitor fresh ev = Some fresh' →
  monitor (tr ++ [ev]) (Some false) = Some fresh'.
Proof. apply run_monitor_snoc. Qed.

Lemma monitor_prefix tr tr' st fresh :
  monitor (tr ++ tr') st = Some fresh → ∃ f, monitor tr st = Some f.
Proof. apply run_monitor_prefix. Qed.

Lemma monitor_no_step tr :
  (∀ ev, ev ∈ tr → is_controller_step ev = false) →
  monitor tr (Some true) = Some true.
Proof.
  induction tr as [|ev tr IH]; intros Hno; [done|].
  rewrite monitor_cons.
  assert (Hev : is_controller_step ev = false) by (apply Hno; left).
  assert (Hstep : step_monitor true ev = Some true).
  { destruct ev as [X c a|d]; [|done]. by destruct c. }
  rewrite Hstep. apply IH. intros ev' Hin. apply Hno. by right.
Qed.

(** What a trace the monitor accepts says about [controller.step]. *)
Lemma monitor_sound tr start fresh :
  monitor tr (Some start) = Some fresh →
  (∀ observation reward done answer,
     Ev (controller_step observation reward done) answer ∈ tr → done = false)
  ∧ (∀ before obs0 between observation reward done answer after,
       tr = before ++ Ev env_reset obs0 :: between
              ++ Ev (controller_step observation reward done) answer :: after →
       (∀ ev, ev ∈ between → is_controller_step ev = false) →
       reward = 0).
Proof.
  intros Hm. split.
  - intros observation reward done answer Hin.
    apply list_elem_of_split in Hin as (l1 & l2 & ->).
    destruct (monitor_prefix _ _ _ _ Hm) as [f1 Hf1].
    rewrite monitor_app, Hf1, monitor_cons in Hm.
    cbn in Hm. destruct done; [|done].
    cbn in Hm. by rewrite monitor_None in Hm.
  - intros before obs0 between observation reward done answer after -> Hno.
    destruct (monitor_prefix _ _ _ _ Hm) as [f1 Hf1].
    rewrite monitor_app, Hf1, monitor_cons in Hm. cbn [step_monitor] in Hm.
    rewrite monitor_app, (monitor_no_step _ Hno), monitor_cons in Hm.
    cbn in Hm. destruct done; cbn in Hm; [by rewrite monitor_None in Hm|].
    case_bool_decide; [done|]. by rewrite monitor_None in Hm.
Qed.

End StepArguments.

Section StepArgumentsRun.

Context {World Obs Action : Type}.
Variable perform : forall X : Type, Call Obs Action X -> World -> (exn + X) * World.

Implicit Types (s : State World Obs Action) (tr : list (Event Obs Action)).

Local Ltac monitor_solve :=
  first [ eassumption
        | eapply monitor_snoc; [monitor_solve | cbn; reflexivity]
        | reflexivity ].

Local Ltac accept :=
  idtac;
  lazymatch goal with
  | |- accepted _ => unfold accepted; wp_simpl; eexists; monitor_solve
  | |- ready _ _ =>
      unfold ready; wp_simpl; eexists; split; [monitor_solve | done]
  end.

Lemma ready_step s observation reward answer :
  ready s reward →
  monitor (trace s ++ [Ev (controller_step observation reward false) answer])
    (Some false) = Some false.
Proof.
  intros (fresh & Hm & Hr). eapply monitor_snoc; [exact Hm|].
  cbn. destruct fresh; [|done]. by rewrite Hr, bool_decide_eq_true_2.
Qed.

Lemma ready_accepted s reward : ready s reward → accepted s.
Proof. intros (f & Hm & _). by exists f. Qed.

Lemma intrinsic_loop_accepted fuel observation reward done steps s :
  ready s reward →
  wp (intrinsic_loop perform fuel observation reward done steps)
    (fun _ => accepted) (fun _ => accepted) s.
Proof.
  revert observation reward done steps s.
  induction fuel as [|fuel IH]; intros observation reward done steps s Hready;
    (destruct done; cbn [intrinsic_loop];
     [wp_step; by eapply ready_accepted|]).
  - wp_step. by eapply ready_accepted.
  - pose proof (ready_step s observation reward) as Hstep.
    wp_step. wp_step; [by eexists; apply Hstep|].
    specialize (Hstep (inr a) Hready).
    wp_step. wp_step; [accept|].
    wp_step. wp_step. wp_step. wp_step.
    apply IH. accept.
Qed.

Lemma extrinsic_loop_accepted fuel k observation reward done s :
  ready s reward →
  wp (extrinsic_loop perform fuel k observation reward done)
    (fun _ => accepted) (fun _ => accepted) s.
Proof.
  revert observation reward done s.
  induction fuel as [|fuel IH]; intros observation reward done s Hready;
    (destruct done; cbn [extrinsic_loop];
     [wp_step; by eapply ready_accepted|]).
  - wp_step. by eapply ready_accepted.
  - pose proof (ready_step s observation reward) as Hstep.
    wp_step. wp_step; [by eexists; apply Hstep|].
    specialize (Hstep (inr a) Hready).
    wp_step. wp_step; [accept|].
    wp_step. wp_step. wp_step. wp_step.
    apply IH. accept.
Qed.

Lemma extrinsic_trial_accepted fuel k s :
  accepted s →
  wp (extrinsic_trial perform fuel k) (fun _ => accepted) (fun _ => accepted) s.
Proof.
  intros [f Hm]. unfold extrinsic_trial. wp_walk accept.
  eapply wp_mono; [apply extrinsic_loop_accepted; accept| |done].
  intros ? s' [f' Hm']. cbv beta. wp_walk accept.
Qed.

Lemma for_each_accepted fuel ks s :
  accepted s →
  wp (for_each ks (extrinsic_trial perform fuel))
    (fun _ => accepted) (fun _ => accepted) s.
Proof.
  revert s. induction ks as [|k ks IH]; intros s Hacc; cbn [for_each].
  - by wp_step.
  - wp_step.
    eapply wp_mono; [by apply extrinsic_trial_accepted| |done].
    intros ? s' Hacc'. by apply IH.
Qed.

Lemma extrinsic_phase_accepted fuel extrinsic_trials s :
  accepted s →
  wp (extrinsic_phase perform fuel extrinsic_trials)
    (fun _ => accepted) (fun _ => accepted) s.
Proof.
  intros [f Hm]. unfold extrinsic_phase. wp_walk accept.
  eapply wp_mono; [apply for_each_accepted; accept| |done].
  intros ? s' [f' Hm']. cbv beta. wp_walk accept.
Qed.

Lemma intrinsic_phase_accepted fuel intrinsic_timesteps s :
  accepted s →
  wp (intrinsic_phase perform fuel intrinsic_timesteps)
    (fun _ => accepted) (fun _ => accepted) s.
Proof.
  intros [f Hm]. unfold intrinsic_phase. wp_walk accept.
  eapply wp_mono; [apply intrinsic_loop_accepted; accept| |done].
  intros ? s' [f' Hm']. cbv beta. wp_walk accept.
Qed.

Lemma setup_accepted Controller intrinsic_timesteps extrinsic_timesteps
    visualize goals_dataset_path s :
  accepted s →
  wp (setup perform Controller intrinsic_timesteps extrinsic_timesteps
        visualize goals_dataset_path)
    (fun _ => accepted) (fun _ => accepted) s.
Proof. intros [f Hm]. unfold setup. wp_walk accept. Qed.

Lemma evaluate_accepted fuel Controller intrinsic_timesteps extrinsic_timesteps
    extrinsic_trials visualize goals_dataset_path s :
  accepted s →
  accepted (evaluate perform fuel Controller intrinsic_timesteps
              extrinsic_timesteps extrinsic_trials visualize
              goals_dataset_path s).2.
Proof.
  intros Hacc.
  cut (wp (evaluate perform fuel Controller intrinsic_timesteps
             extrinsic_timesteps extrinsic_trials visualize goals_dataset_path)
         (fun _ => accepted) (fun _ => accepted) s).
  { intros H%wp_run. by destruct (evaluate _ _ _ _ _ _ _ _ s).1. }
  unfold evaluate. wp_step.
  eapply wp_mono; [by apply setup_accepted| |done].
  intros ? s1 [f1 Hm1]. cbv beta. wp_walk accept.
  eapply wp_mono; [apply intrinsic_phase_accepted; accept| |done].
  intros ? s2 Hacc2. cbv beta.
  by apply extrinsic_phase_accepted.
Qed.

(** C10. In every run of [evaluate], finished or not, every call of
    [controller.step] is handed [done = False], and the first call of
    [controller.step] after a reset of the environment is handed
    [reward = 0]. *)
Theorem controller_step_arguments fuel Controller intrinsic_timesteps
    extrinsic_timesteps extrinsic_trials visualize goals_dataset_path (w : World) :
  let tr :=
    trace (evaluate perform fuel Controller intrinsic_timesteps
             extrinsic_timesteps extrinsic_trials visualize
             goals_dataset_path (initial_state w)).2 in
  (∀ observation reward done answer,
     Ev (controller_step observation reward done) answer ∈ tr → done = false)
  ∧ (∀ before obs0 between observation reward done answer after,
       tr = before ++ Ev env_reset obs0 :: between
              ++ Ev (controller_step observation reward done) answer :: after →
       (∀ ev, ev ∈ between → is_controller_step ev = false) →
       reward = 0).
Proof.
  intros tr.
  destruct (evaluate_accepted fuel Controller intrinsic_timesteps
              extrinsic_timesteps extrinsic_trials visualize
              goals_dataset_path (initial_state w)) as [f Hm].
  { by exists false. }
  exact (monitor_sound _ _ _ Hm).
Qed.

End StepArgumentsRun.

Section Failure.

Context {World Obs Action : Type}.
Variable perform : forall X : Type, Call Obs Action X -> World -> (exn + X) * World.

Implicit Types (s : State World Obs Action) (tr : list (Event Obs Action))
  (v : option EvaluationState).

Local Ltac quiet_solve :=
  first [ eassumption
        | apply Forall_nil_2
        | apply Forall_app_2; [quiet_solve | by repeat constructor] ].

Local Ltac sound :=
  idtac;
  lazymatch goal with
  | |- going _ _ => split; wp_simpl; [quiet_solve | done]
  | |- halted _ (Some _) _ =>
      split; wp_simpl;
      [ first [ left; eexists _, _; split; [reflexivity|];
                split; [reflexivity | quiet_solve]
              | right; split; [quiet_solve | reflexivity] ]
      | done ]
  | |- halted _ None _ => split; wp_simpl; [quiet_solve | done]
  end.

Lemma intrinsic_loop_sound v fuel observation reward done steps s :
  going v s →
  wp (intrinsic_loop perform fuel observation reward done steps)
    (fun _ => going v) (halted v) s.
Proof.
  revert observation reward done steps s.
  induction fuel as [|fuel IH]; intros observation reward done steps s [Hq Hv];
    (destruct done; cbn [intrinsic_loop]; [wp_step; sound|]).
  - wp_step. sound.
  - wp_walk sound. apply IH. sound.
Qed.

Lemma extrinsic_loop_sound v fuel k observation reward done s :
  going v s →
  wp (extrinsic_loop perform fuel k observation reward done)
    (fun _ => going v) (halted v) s.
Proof.
  revert observation reward done s.
  induction fuel as [|fuel IH]; intros observation reward done s [Hq Hv];
    (destruct done; cbn [extrinsic_loop]; [wp_step; sound|]).
  - wp_step. sound.
  - wp_walk sound. apply IH. sound.
Qed.

Lemma extrinsic_trial_sound v fuel k s :
  going v s →
  wp (extrinsic_trial perform fuel k) (fun _ => going v) (halted v) s.
Proof.
  intros [Hq Hv]. unfold extrinsic_trial. wp_walk sound.
  eapply wp_mono; [apply extrinsic_loop_sound; sound| |done].
  intros ? s' [Hq' Hv']. cbv beta. wp_walk sound.
Qed.

Lemma for_each_sound v fuel ks s :
  going v s →
  wp (for_each ks (extrinsic_trial perform fuel)) (fun _ => going v) (halted v) s.
Proof.
  revert s. induction ks as [|k ks IH]; intros s Hs; cbn [for_each].
  - by wp_step.
  - wp_step. eapply wp_mono; [by apply extrinsic_trial_sound| |done].
    intros ? s' Hs'. by apply IH.
Qed.

Lemma extrinsic_phase_sound v fuel extrinsic_trials s :
  going v s →
  wp (extrinsic_phase perform fuel extrinsic_trials)
    (fun _ => going v) (halted v) s.
Proof.
  intros [Hq Hv]. unfold extrinsic_phase. wp_walk sound.
  eapply wp_mono; [apply for_each_sound; sound| |done].
  intros ? s' [Hq' Hv']. cbv beta. wp_walk sound.
Qed.

Lemma intrinsic_phase_sound v fuel intrinsic_timesteps s :
  going v s →
  wp (intrinsic_phase perform fuel intrinsic_timesteps)
    (fun _ => going v) (halted v) s.
Proof.
  intros [Hq Hv]. unfold intrinsic_phase. wp_walk sound.
  eapply wp_mono; [apply intrinsic_loop_sound; sound| |done].
  intros ? s' [Hq' Hv']. cbv beta. wp_walk sound.
Qed.

Lemma setup_sound v Controller intrinsic_timesteps extrinsic_timesteps
    visualize goals_dataset_path s :
  going v s →
  wp (setup perform Controller intrinsic_timesteps extrinsic_timesteps
        visualize goals_dataset_path)
    (fun _ => going v) (halted v) s.
Proof. intros [Hq Hv]. unfold setup. wp_walk sound. Qed.

Lemma evaluate_sound fuel Controller intrinsic_timesteps extrinsic_timesteps
    extrinsic_trials visualize goals_dataset_path (w : World) :
  let v := Some (initial_evaluation_state intrinsic_timesteps
                   extrinsic_timesteps extrinsic_trials) in
  wp (evaluate perform fuel Controller intrinsic_timesteps extrinsic_timesteps
        extrinsic_trials visualize goals_dataset_path)
    (fun _ => going v)
    (fun o s => halted None o s ∨ halted v o s)
    (initial_state w).
Proof.
  intros v. unfold evaluate. wp_step.
  eapply wp_mono; [apply (setup_sound None); by split; [constructor|]| |by left].
  intros ? s1 [Hq1 Hv1]. cbv beta. wp_walk sound.
  eapply wp_mono; [apply (intrinsic_phase_sound v); sound| |by right].
  intros ? s2 Hs2. cbv beta.
  eapply wp_mono; [by apply (extrinsic_phase_sound v)|done|by right].
Qed.

Lemma quiet_no_raise tr before ev after e :
  quiet tr → tr = before ++ ev :: after → raised ev = Some e → False.
Proof.
  intros Hq -> Hev. unfold quiet in Hq.
  apply Forall_app in Hq as [_ Hq]. apply Forall_cons_1 in Hq as [Hq _]. congruence.
Qed.

Lemma stopped_by_last tr before ev after e e0 :
  stopped_by e0 tr → tr = before ++ ev :: after → raised ev = Some e →
  after = [] ∧ e = e0.
Proof.
  intros (tr0 & ev0 & -> & Hev0 & Hq) Heq Hev.
  destruct after as [|x after _] using rev_ind.
  - apply app_inj_tail in Heq as [_ ->]. split; [done | congruence].
  - exfalso.
    change (before ++ ev :: after ++ [x]) with (before ++ (ev :: after) ++ [x]) in Heq.
    rewrite app_assoc in Heq. apply app_inj_tail in Heq as [-> _].
    by eapply quiet_no_raise.
Qed.

(** What a run ends in, whatever its outcome. *)
Lemma evaluate_ends fuel Controller intrinsic_timesteps extrinsic_timesteps
    extrinsic_trials visualize goals_dataset_path (w : World) o s' :
  evaluate perform fuel Controller intrinsic_timesteps extrinsic_timesteps
    extrinsic_trials visualize goals_dataset_path (initial_state w) = (o, s') →
  match o with
  | Returned _ | OutOfFuel => quiet (trace s')
  | Raised e =>
      stopped_by e (trace s')
      ∨ (quiet (trace s') ∧ e = Exception not_a_subclass_message)
  end
  ∧ ∀ st, evaluation_state s' = Some st →
          st = initial_evaluation_state intrinsic_timesteps
                 extrinsic_timesteps extrinsic_trials.
Proof.
  intros Hrun.
  pose proof (wp_run _ _ _ _
    (evaluate_sound fuel Controller intrinsic_timesteps extrinsic_timesteps
       extrinsic_trials visualize goals_dataset_path w)) as H.
  cbv zeta in H. rewrite Hrun in H. cbn [fst snd] in H.
  assert (Hst : ∀ v, evaluation_state s' = v →
    v = None ∨ v = Some (initial_evaluation_state intrinsic_timesteps
                          extrinsic_timesteps extrinsic_trials) →
    ∀ st, evaluation_state s' = Some st →
          st = initial_evaluation_state intrinsic_timesteps
                 extrinsic_timesteps extrinsic_trials).
  { intros v Hv [->| ->] st Hst; rewrite Hst in Hv; [done|]. by injection Hv. }
  destruct o as [so|e0|].
  - destruct H as [Hq Hv]. split; [done | eauto].
  - destruct H as [[H Hv]|[H Hv]]; (split; [done | eauto]).
  - destruct H as [[H Hv]|[H Hv]]; (split; [done | eauto]).
Qed.

(** C4, as the code has it. When a call on the controller or on the
    environment raises, the orchestrator does not catch it: that call is
    the last thing the run does (no reset, no set_goal, no further trial
    follows), the run ends in that very exception and so returns no
    score object.  The [evaluation_state] record is never updated: its
    "state" field, once set, still reads "PENDING". *)
Theorem collaborator_failure_ends_run fuel Controller intrinsic_timesteps
    extrinsic_timesteps extrinsic_trials visualize goals_dataset_path
    (w : World) o s' :
  evaluate perform fuel Controller intrinsic_timesteps extrinsic_timesteps
    extrinsic_trials visualize goals_dataset_path (initial_state w) = (o, s') →
  (∀ before ev after e,
     trace s' = before ++ ev :: after → raised ev = Some e →
     after = [] ∧ o = Raised e)
  ∧ (∀ st, evaluation_state s' = Some st →
           dict_get "state" st = Some (VStr "PENDING")).
Proof.
  intros [Hend Hst]%evaluate_ends. split.
  - intros before ev after e Htr Hev.
    destruct o as [so|e0|]; [exfalso; by eapply quiet_no_raise| |
                             exfalso; by eapply quiet_no_raise].
    destruct Hend as [Hstop|[Hq _]]; [|exfalso; by eapply quiet_no_raise].
    by destruct (stopped_by_last _ _ _ _ _ _ Hstop Htr Hev) as [-> ->].
  - by intros st ->%Hst.
Qed.

End Failure.

Section Protocol.

Context {World Obs Action : Type}.
Variable perform : forall X : Type, Call Obs Action X -> World -> (exn + X) * World.

Implicit Types (s : State World Obs Action) (tr : list (Event Obs Action))
  (hs : list Hook).

Lemma hooks_snoc tr (ev : Event Obs Action) :
  hooks (tr ++ [ev]) = hooks tr ++ (if hook_of ev is Some h then [h] else []).
Proof. unfold hooks. rewrite omap_app. cbn. by destruct (hook_of ev). Qed.

Local Ltac hook_solve :=
  idtac;
  lazymatch goal with
  | |- hooked _ _ =>
      unfold hooked in *; wp_simpl; rewrite ?hooks_snoc;
      cbn [hook_of hook_of_call]; rewrite ?app_nil_r;
      match goal with
      | H : hooks _ = _ |- _ => rewrite H; rewrite <- ?app_assoc; reflexivity
      end
  | |- True => exact I
  end.

Local Abbreviation anyhow := (fun (_ : option exn) (_ : State World Obs Action) => True).

Lemma intrinsic_loop_hooks hs fuel observation reward done steps s :
  hooked hs s →
  wp (intrinsic_loop perform fuel observation reward done steps)
    (fun _ => hooked hs) anyhow s.
Proof.
  revert observation reward done steps s.
  induction fuel as [|fuel IH]; intros observation reward done steps s Hs;
    (destruct done; cbn [intrinsic_loop]; [by wp_step|]).
  - by wp_step.
  - wp_walk hook_solve. apply IH. hook_solve.
Qed.

Lemma extrinsic_loop_hooks hs fuel k observation reward done s :
  hooked hs s →
  wp (extrinsic_loop perform fuel k observation reward done)
    (fun _ => hooked hs) anyhow s.
Proof.
  revert observation reward done s.
  induction fuel as [|fuel IH]; intros observation reward done s Hs;
    (destruct done; cbn [extrinsic_loop]; [by wp_step|]).
  - by wp_step.
  - wp_walk hook_solve. apply IH. hook_solve.
Qed.

Lemma extrinsic_trial_hooks hs fuel k s :
  hooked hs s →
  wp (extrinsic_trial perform fuel k) (fun _ => hooked (hs ++ trial_hooks)) anyhow s.
Proof.
  intros Hs. unfold extrinsic_trial. wp_walk hook_solve.
  eapply wp_mono; [apply (extrinsic_loop_hooks (hs ++ [h_reset; h_set_goal;
    h_start_extrinsic_trial])); hook_solve| |done].
  intros ? s' Hs'. cbv beta. wp_walk hook_solve.
Qed.

Lemma for_each_hooks fuel ks hs s :
  hooked hs s →
  wp (for_each ks (extrinsic_trial perform fuel))
    (fun _ => hooked (hs ++ concat (replicate (length ks) trial_hooks))) anyhow s.
Proof.
  revert hs s. induction ks as [|k ks IH]; intros hs s Hs; cbn [for_each].
  - wp_step. cbn. by rewrite app_nil_r.
  - wp_step. eapply wp_mono; [apply (extrinsic_trial_hooks hs); exact Hs| |done].
    intros ? s' Hs'. cbv beta.
    eapply wp_mono; [apply (IH (hs ++ trial_hooks)); exact Hs'| |done].
    intros ? s'' Hs''. cbn [length replicate concat].
    by rewrite app_assoc.
Qed.

Lemma extrinsic_phase_hooks fuel extrinsic_trials hs s :
  hooked hs s →
  wp (extrinsic_phase perform fuel extrinsic_trials)
    (fun _ => hooked (hs ++ extrinsic_hooks extrinsic_trials)) anyhow s.
Proof.
  intros Hs. unfold extrinsic_phase. wp_walk hook_solve.
  eapply wp_mono; [apply (for_each_hooks _ _ (hs ++ [h_start_extrinsic_phase]));
                   hook_solve| |done].
  intros ? s' Hs'. cbv beta. unfold range in Hs'. rewrite length_seq in Hs'.
  unfold extrinsic_hooks. wp_walk hook_solve.
Qed.

Lemma intrinsic_phase_hooks fuel intrinsic_timesteps hs s :
  hooked hs s →
  wp (intrinsic_phase perform fuel intrinsic_timesteps)
    (fun _ => hooked (hs ++ intrinsic_hooks intrinsic_timesteps)) anyhow s.
Proof.
  intros Hs. unfold intrinsic_phase, intrinsic_hooks.
  destruct (positive_budget intrinsic_timesteps); [|wp_walk hook_solve].
  wp_walk hook_solve.
  eapply wp_mono; [apply (intrinsic_loop_hooks (hs ++ [h_reset;
    h_start_intrinsic_phase])); hook_solve| |done].
  intros ? s' Hs'. cbv beta. wp_walk hook_solve.
Qed.

Lemma setup_hooks Controller intrinsic_timesteps extrinsic_timesteps
    visualize goals_dataset_path hs s :
  hooked hs s →
  wp (setup perform Controller intrinsic_timesteps extrinsic_timesteps
        visualize goals_dataset_path)
    (fun _ => hooked hs) anyhow s.
Proof. intros Hs. unfold setup. wp_walk hook_solve. Qed.

(** The budget [evaluate] tests: 0 for a falsy argument. *)
Lemma positive_budget_normalised intrinsic_timesteps :
  positive_budget
    (if negb (truthy intrinsic_timesteps) then BInt 0 else intrinsic_timesteps)
  = positive_budget intrinsic_timesteps.
Proof. destruct intrinsic_timesteps as [n|[]]; cbn; [|done..]. by destruct n. Qed.

(** The protocol calls of every run that returns. *)
Lemma evaluate_hooks fuel Controller intrinsic_timesteps extrinsic_timesteps
    extrinsic_trials visualize goals_dataset_path (w : World) so s' :
  evaluate perform fuel Controller intrinsic_timesteps extrinsic_timesteps
    extrinsic_trials visualize goals_dataset_path (initial_state w)
  = (Returned so, s') →
  hooks (trace s')
  = intrinsic_hooks intrinsic_timesteps ++ extrinsic_hooks extrinsic_trials.
Proof.
  intros Hrun.
  cut (wp (evaluate perform fuel Controller intrinsic_timesteps
             extrinsic_timesteps extrinsic_trials visualize goals_dataset_path)
         (fun _ => hooked (intrinsic_hooks intrinsic_timesteps
                           ++ extrinsic_hooks extrinsic_trials))
         anyhow (initial_state w)).
  { intros H%wp_run. by rewrite Hrun in H. }
  unfold evaluate. wp_step.
  eapply wp_mono; [by apply (setup_hooks _ _ _ _ _ [])| |done].
  intros ? s1 Hs1. cbv beta. wp_walk hook_solve.
  eapply wp_mono; [apply (intrinsic_phase_hooks _ _ []); hook_solve| |done].
  intros ? s2 Hs2. cbv beta.
  unfold intrinsic_hooks in Hs2. rewrite positive_budget_normalised in Hs2.
  apply (extrinsic_phase_hooks _ _ (intrinsic_hooks intrinsic_timesteps)).
  exact Hs2.
Qed.

Lemma occurrences_app h hs hs' :
  occurrences h (hs ++ hs') = (occurrences h hs + occurrences h hs')%nat.
Proof. unfold occurrences. by rewrite list.filter_app, length_app. Qed.

Lemma occurrences_trials h n :
  occurrences h (concat (replicate n trial_hooks))
  = (n * occurrences h trial_hooks)%nat.
Proof.
  induction n as [|n IH]; [done|].
  cbn [replicate concat]. rewrite occurrences_app, IH. lia.
Qed.

Lemma occurrences_extrinsic h n :
  occurrences h (extrinsic_hooks n)
  = (occurrences h [h_start_extrinsic_phase]
     + Z.to_nat n * occurrences h trial_hooks
     + occurrences h [h_end_extrinsic_trial])%nat.
Proof.
  unfold extrinsic_hooks. rewrite !occurrences_app, occurrences_trials. lia.
Qed.

Lemma elem_of_trials h n :
  h ∈ concat (replicate n trial_hooks) → h ∈ trial_hooks.
Proof.
  induction n as [|n IH]; cbn [replicate concat].
  - by intros ?%elem_of_nil.
  - intros [?|?]%elem_of_app; auto.
Qed.

(** C2, as the code has it. In every run that returns, the extrinsic
    phase is [start_extrinsic_phase], then for each of the N trials the
    calls reset, set_goal, start_extrinsic_trial, end_extrinsic_trial,
    evaluateGoal in this order, and then one more [end_extrinsic_trial]:
    reset, set_goal, evaluateGoal and start_extrinsic_trial are called N
    times each, [end_extrinsic_trial] N + 1 times, the last time without
    a trial having been started. *)
Theorem extrinsic_phase_calls fuel Controller intrinsic_timesteps
    extrinsic_timesteps extrinsic_trials visualize goals_dataset_path
    (w : World) so s' :
  evaluate perform fuel Controller intrinsic_timesteps extrinsic_timesteps
    extrinsic_trials visualize goals_dataset_path (initial_state w)
  = (Returned so, s') →
  let N := Z.to_nat extrinsic_trials in
  hooks (trace s')
  = intrinsic_hooks intrinsic_timesteps
    ++ [h_start_extrinsic_phase]
    ++ concat (replicate N
         [h_reset; h_set_goal; h_start_extrinsic_trial; h_end_extrinsic_trial;
          h_evaluateGoal])
    ++ [h_end_extrinsic_trial]
  ∧ occurrences h_reset (extrinsic_hooks extrinsic_trials) = N
  ∧ occurrences h_set_goal (extrinsic_hooks extrinsic_trials) = N
  ∧ occurrences h_evaluateGoal (extrinsic_hooks extrinsic_trials) = N
  ∧ occurrences h_start_extrinsic_trial (extrinsic_hooks extrinsic_trials) = N
  ∧ occurrences h_end_extrinsic_trial (extrinsic_hooks extrinsic_trials) = S N.
Proof.
  intros Hrun N. split; [by apply evaluate_hooks in Hrun|].
  rewrite !occurrences_extrinsic. fold N.
  repeat match goal with
  | |- context [occurrences ?h ?l] =>
      let v := eval vm_compute in (occurrences h l) in
      change (occurrences h l) with v
  end.
  lia.
Qed.

(** C3, as the code has it. A run that returns has never called
    [end_extrinsic_phase]: the call it makes after the last trial, and
    the last protocol call of the run, is [end_extrinsic_trial]. *)
Theorem no_end_extrinsic_phase fuel Controller intrinsic_timesteps
    extrinsic_timesteps extrinsic_trials visualize goals_dataset_path
    (w : World) so s' :
  evaluate perform fuel Controller intrinsic_timesteps extrinsic_timesteps
    extrinsic_trials visualize goals_dataset_path (initial_state w)
  = (Returned so, s') →
  (h_end_extrinsic_phase ∉ hooks (trace s'))
  ∧ list.last (hooks (trace s')) = Some h_end_extrinsic_trial.
Proof.
  intros Hrun. apply evaluate_hooks in Hrun. rewrite Hrun. split.
  - unfold intrinsic_hooks, extrinsic_hooks.
    intros [Hin|[Hin|[Hin|Hin]%elem_of_app]%elem_of_app]%elem_of_app.
    + destruct (positive_budget intrinsic_timesteps);
        apply list_elem_of_In in Hin; cbn in Hin; intuition discriminate.
    + apply list_elem_of_In in Hin; cbn in Hin; intuition discriminate.
    + apply elem_of_trials, list_elem_of_In in Hin; cbn in Hin;
        intuition discriminate.
    + apply list_elem_of_In in Hin; cbn in Hin; intuition discriminate.
  - unfold extrinsic_hooks. by rewrite !app_assoc, last_snoc.
Qed.

End Protocol.

Section Skip.

Context {World Obs Action : Type}.
Variable perform : forall X : Type, Call Obs Action X -> World -> (exn + X) * World.

Implicit Types (s : State World Obs Action) (tr : list (Event Obs Action)).

Local Ltac skip_solve :=
  first [ eassumption
        | eapply run_monitor_snoc; [skip_solve | cbn; reflexivity]
        | reflexivity ].

Local Ltac tolerate :=
  idtac;
  lazymatch goal with
  | |- before_extrinsic _ _ => unfold before_extrinsic in *; wp_simpl; skip_solve
  | |- tolerated _ =>
      unfold tolerated, before_extrinsic in *; wp_simpl; eexists; skip_solve
  end.

Local Abbreviation anyway := (fun (_ : option exn) s => tolerated s).

Lemma intrinsic_loop_began fuel observation reward done steps s :
  before_extrinsic true s →
  wp (intrinsic_loop perform fuel observation reward done steps)
    (fun _ => before_extrinsic true) anyway s.
Proof.
  revert observation reward done steps s.
  induction fuel as [|fuel IH]; intros observation reward done steps s Hs;
    (destruct done; cbn [intrinsic_loop]; [by wp_step|]).
  - wp_step. tolerate.
  - wp_walk tolerate. apply IH. tolerate.
Qed.

Lemma extrinsic_loop_began fuel k observation reward done s :
  before_extrinsic true s →
  wp (extrinsic_loop perform fuel k observation reward done)
    (fun _ => before_extrinsic true) anyway s.
Proof.
  revert observation reward done s.
  induction fuel as [|fuel IH]; intros observation reward done s Hs;
    (destruct done; cbn [extrinsic_loop]; [by wp_step|]).
  - wp_step. tolerate.
  - wp_walk tolerate. apply IH. tolerate.
Qed.

Lemma extrinsic_trial_began fuel k s :
  before_extrinsic true s →
  wp (extrinsic_trial perform fuel k) (fun _ => before_extrinsic true) anyway s.
Proof.
  intros Hs. unfold extrinsic_trial. wp_walk tolerate.
  eapply wp_mono; [apply extrinsic_loop_began; tolerate| |done].
  intros ? s' Hs'. cbv beta. wp_walk tolerate.
Qed.

Lemma for_each_began fuel ks s :
  before_extrinsic true s →
  wp (for_each ks (extrinsic_trial perform fuel))
    (fun _ => before_extrinsic true) anyway s.
Proof.
  revert s. induction ks as [|k ks IH]; intros s Hs; cbn [for_each].
  - by wp_step.
  - wp_step. eapply wp_mono; [by apply extrinsic_trial_began| |done].
    intros ? s' Hs'. by apply IH.
Qed.

Lemma extrinsic_phase_begins fuel extrinsic_trials s :
  before_extrinsic false s →
  wp (extrinsic_phase perform fuel extrinsic_trials)
    (fun _ => before_extrinsic true) anyway s.
Proof.
  intros Hs. unfold extrinsic_phase. wp_walk tolerate.
  eapply wp_mono; [apply for_each_began; tolerate| |done].
  intros ? s' Hs'. cbv beta. wp_walk tolerate.
Qed.

Lemma setup_quietly Controller intrinsic_timesteps extrinsic_timesteps
    visualize goals_dataset_path s :
  before_extrinsic false s →
  wp (setup perform Controller intrinsic_timesteps extrinsic_timesteps
        visualize goals_dataset_path)
    (fun _ => before_extrinsic false) anyway s.
Proof. intros Hs. unfold setup. wp_walk tolerate. Qed.

Lemma evaluate_skips fuel Controller intrinsic_timesteps extrinsic_timesteps
    extrinsic_trials visualize goals_dataset_path (w : World) :
  positive_budget intrinsic_timesteps = false →
  tolerated (evaluate perform fuel Controller intrinsic_timesteps
               extrinsic_timesteps extrinsic_trials visualize
               goals_dataset_path (initial_state w)).2.
Proof.
  intros Hskip.
  cut (wp (evaluate perform fuel Controller intrinsic_timesteps
             extrinsic_timesteps extrinsic_trials visualize goals_dataset_path)
         (fun _ => tolerated) anyway (initial_state w)).
  { intros H%wp_run. by destruct (evaluate _ _ _ _ _ _ _ _ _).1. }
  unfold evaluate. wp_step.
  eapply wp_mono; [by apply setup_quietly| |done].
  intros ? s1 Hs1. cbv beta. wp_walk tolerate.
  unfold intrinsic_phase. rewrite positive_budget_normalised, Hskip.
  wp_step.
  eapply wp_mono; [apply extrinsic_phase_begins; tolerate| |done].
  intros ? s2 Hs2. by exists true.
Qed.

Lemma skip_monitor_waiting tr :
  Forall (fun ev => begins_extrinsic_phase ev = false) tr →
  run_monitor skip_monitor tr (Some false) = Some false
  ∨ run_monitor skip_monitor tr (Some false) = None.
Proof.
  induction tr as [|ev tr IH] using rev_ind; intros Hall; [by left|].
  apply Forall_app in Hall as [Hall Hev%Forall_cons_1]. destruct Hev as [Hev _].
  rewrite run_monitor_app.
  destruct (IH Hall) as [-> | ->]; [|by right].
  cbn. unfold skip_monitor. rewrite Hev.
  destruct (is_interaction ev); auto.
Qed.

(** What a trace the skip monitor accepts says about the events that
    come before the extrinsic phase begins. *)
Lemma skip_monitor_sound tr began before ev after :
  run_monitor skip_monitor tr (Some false) = Some began →
  tr = before ++ ev :: after →
  Forall (fun ev' => begins_extrinsic_phase ev' = false) before →
  begins_extrinsic_phase ev = true ∨ is_interaction ev = false.
Proof.
  intros Hm -> Hbefore.
  rewrite run_monitor_app in Hm.
  destruct (skip_monitor_waiting _ Hbefore) as [H|H]; rewrite H in Hm;
    [|by rewrite run_monitor_None in Hm].
  rewrite run_monitor_cons in Hm. unfold skip_monitor in Hm.
  destruct (begins_extrinsic_phase ev); [by left|].
  destruct (is_interaction ev); [|by right].
  by rewrite run_monitor_None in Hm.
Qed.

End Skip.

Section SkipClaim.

Context {World Obs Action : Type}.
Variable perform : forall X : Type, Call Obs Action X -> World -> (exn + X) * World.

Implicit Types (s : State World Obs Action) (tr : list (Event Obs Action)).

(** The trace of a run only grows. *)
Local Abbreviation onward tr := (fun s => ∃ rest, trace s = tr ++ rest).

Local Ltac onward :=
  idtac;
  lazymatch goal with
  | H : ∃ rest, trace ?s = ?tr ++ rest |- ∃ rest, _ = ?tr ++ rest =>
      let rest := fresh "rest" in
      destruct H as [rest H]; wp_simpl; eexists;
      rewrite H, <- ?(assoc_L (++)); reflexivity
  end.

Lemma bind_returned {A B} (m : M World Obs Action A)
    (f : A -> M World Obs Action B) s a s1 :
  m s = (Returned a, s1) → bind m f s = f a s1.
Proof. intros H. unfold bind. by rewrite H. Qed.

Lemma extrinsic_loop_onward tr fuel k observation reward done s :
  onward tr s →
  wp (extrinsic_loop perform fuel k observation reward done)
    (fun _ => onward tr) (fun _ => onward tr) s.
Proof.
  revert observation reward done s.
  induction fuel as [|fuel IH]; intros observation reward done s Hs;
    (destruct done; cbn [extrinsic_loop]; [by wp_step|]).
  - by wp_step.
  - wp_walk onward. apply IH. onward.
Qed.

Lemma extrinsic_trial_onward tr fuel k s :
  onward tr s →
  wp (extrinsic_trial perform fuel k) (fun _ => onward tr) (fun _ => onward tr) s.
Proof.
  intros Hs. unfold extrinsic_trial. wp_walk onward.
  eapply wp_mono; [apply (extrinsic_loop_onward tr); onward| |done].
  intros ? s' Hs'. cbv beta. wp_walk onward.
Qed.

Lemma for_each_onward tr fuel ks s :
  onward tr s →
  wp (for_each ks (extrinsic_trial perform fuel))
    (fun _ => onward tr) (fun _ => onward tr) s.
Proof.
  revert s. induction ks as [|k ks IH]; intros s Hs; cbn [for_each].
  - by wp_step.
  - wp_step. eapply wp_mono; [by apply extrinsic_trial_onward| |done].
    intros ? s' Hs'. by apply IH.
Qed.

(** After set-up, a run that skips the intrinsic phase prints the warning,
    opens the extrinsic phase's progress bar with its banner and calls
    [start_extrinsic_phase]. *)
Lemma skip_goes_on fuel Controller intrinsic_timesteps extrinsic_timesteps
    extrinsic_trials visualize goals_dataset_path (w : World) s1 :
  positive_budget intrinsic_timesteps = false →
  setup perform Controller intrinsic_timesteps extrinsic_timesteps visualize
    goals_dataset_path (initial_state w) = (Returned tt, s1) →
  ∃ answer rest,
    trace (evaluate perform fuel Controller intrinsic_timesteps
             extrinsic_timesteps extrinsic_trials visualize
             goals_dataset_path (initial_state w)).2
    = trace s1 ++ skip_events answer ++ rest.
Proof.
  intros Hskip Hsetup.
  unfold evaluate. rewrite (bind_returned _ _ _ _ _ Hsetup).
  match goal with |- context [trace (?m s1).2] =>
    cut (wp m
           (fun _ s' => ∃ answer rest, trace s' = trace s1 ++ skip_events answer ++ rest)
           (fun _ s' => ∃ answer rest, trace s' = trace s1 ++ skip_events answer ++ rest)
           s1);
    [intros H%wp_run; by destruct (m s1).1|]
  end.
  do 2 (wp_step; wp_step).
  unfold intrinsic_phase. rewrite positive_budget_normalised, Hskip.
  wp_step. unfold extrinsic_phase.
  do 2 (wp_step; wp_step). wp_step. wp_step.
  apply wp_call; intros answer w' _; cbv zeta; destruct answer as [e|u]; wp_simpl.
  - exists (inl e), []. by rewrite <- !(assoc_L (++)).
  - wp_step.
    eapply wp_mono;
      [apply (for_each_onward
                (trace s1 ++ skip_events (inr u)));
       exists []; rewrite <- !(assoc_L (++)), app_nil_r; reflexivity
      | | intros ? s' [rest Hs']; exists (inr u), rest;
          by rewrite Hs', <- (assoc_L (++))].
    intros ? s2 Hs2. cbv beta in Hs2 |- *.
    eapply wp_mono with (Q := fun _ => onward (trace s1 ++ skip_events (inr u)))
                        (E := fun _ => onward (trace s1 ++ skip_events (inr u))).
    + wp_walk onward.
    + intros ? s' [rest Hs']. exists (inr u), rest. by rewrite Hs', <- (assoc_L (++)).
    + intros ? s' [rest Hs']. exists (inr u), rest. by rewrite Hs', <- (assoc_L (++)).
Qed.

(** C5, as the code has it. When [intrinsic_timesteps] is 0 or False, no
    run of [evaluate] calls [start_intrinsic_phase], [end_intrinsic_phase],
    [controller.step], [env.reset] or any other protocol call before it
    calls [start_extrinsic_phase]: until then it only sets up and
    displays.  When set-up returns, the run goes on with the warning that
    the intrinsic phase is skipped, the banner of the extrinsic phase and
    the call of [start_extrinsic_phase], in this order and with nothing in
    between.  The [evaluation_state] record holds no
    [intrinsic_phase_state] and is never updated: its "state" field still
    reads "PENDING". *)
Theorem intrinsic_phase_skipped fuel Controller intrinsic_timesteps
    extrinsic_timesteps extrinsic_trials visualize goals_dataset_path
    (w : World) o s' :
  intrinsic_timesteps = BInt 0 ∨ intrinsic_timesteps = BBool false →
  evaluate perform fuel Controller intrinsic_timesteps extrinsic_timesteps
    extrinsic_trials visualize goals_dataset_path (initial_state w) = (o, s') →
  (∀ before ev after,
     trace s' = before ++ ev :: after →
     Forall (fun ev' => begins_extrinsic_phase ev' = false) before →
     begins_extrinsic_phase ev = true ∨ is_interaction ev = false)
  ∧ (∀ s1,
       setup perform Controller intrinsic_timesteps extrinsic_timesteps
         visualize goals_dataset_path (initial_state w) = (Returned tt, s1) →
       ∃ (answer : exn + unit) rest,
         trace s'
         = trace s1
           ++ [Out (print "[WARNING] Skipping Intrinsic Phase as intrinsic_timesteps = 0 or False");
               Out (tqdm extrinsic_phase_progress_bar);
               Out (bar_write extrinsic_phase_progress_bar
                      "######################################################");
               Out (bar_write extrinsic_phase_progress_bar
                      "# Extrinsic Phase Initiated");
               Out (bar_write extrinsic_phase_progress_bar
                      "######################################################");
               Ev start_extrinsic_phase answer]
           ++ rest)
  ∧ (∀ st, evaluation_state s' = Some st →
           dict_get "intrinsic_phase_state" st = None
           ∧ dict_get "state" st = Some (VStr "PENDING")).
Proof.
  intros Hzero Hrun.
  assert (Hskip : positive_budget intrinsic_timesteps = false)
    by (by destruct Hzero as [-> | ->]).
  split; [|split].
  - intros before ev after Htr Hbefore.
    destruct (evaluate_skips perform fuel Controller intrinsic_timesteps
                extrinsic_timesteps extrinsic_trials visualize
                goals_dataset_path w Hskip) as [began Hm].
    rewrite Hrun in Hm. by eapply skip_monitor_sound.
  - intros s1 Hsetup.
    destruct (skip_goes_on fuel Controller intrinsic_timesteps
                extrinsic_timesteps extrinsic_trials visualize
                goals_dataset_path w s1 Hskip Hsetup) as (answer & rest & Htr).
    rewrite Hrun in Htr. exists answer, rest. exact Htr.
  - apply evaluate_ends in Hrun as [_ Hst]. by intros st ->%Hst.
Qed.

End SkipClaim.

Section Contract.

Context {World Obs Action : Type}.
Variable perform : forall X : Type, Call Obs Action X -> World -> (exn + X) * World.

Implicit Types (s : State World Obs Action) (tr : list (Event Obs Action)).

Local Ltac reject :=
  idtac;
  lazymatch goal with
  | |- rejected (Some _) _ =>
      split; [by eexists|]; wp_simpl;
      split; [first [ by intros _
                    | intros Hq; exfalso;
                      apply Forall_app in Hq as [_ [Hq _]%Forall_cons_1];
                      discriminate Hq ]|];
      split; [by repeat constructor | cbn; lia]
  end.

Lemma setup_rejects Controller intrinsic_timesteps extrinsic_timesteps
    visualize goals_dataset_path (w : World) :
  issubclass_BasePolicy Controller = false →
  wp (setup perform Controller intrinsic_timesteps extrinsic_timesteps
        visualize goals_dataset_path)
    (fun _ _ => False) rejected (initial_state w).
Proof.
  intros Hsub. unfold setup. rewrite Hsub. cbn [negb].
  wp_walk reject.
Qed.

(** C9. When the supplied [Controller] is not a subclass of [BasePolicy],
    every run fails: it raises before the controller is constructed and
    before any protocol call or step is made (the trace holds at most the
    three calls that make and configure the environment), and when those
    calls return the exception is the descriptive contract violation. *)
Theorem not_a_subclass_fails fuel Controller intrinsic_timesteps
    extrinsic_timesteps extrinsic_trials visualize goals_dataset_path
    (w : World) o s' :
  issubclass_BasePolicy Controller = false →
  evaluate perform fuel Controller intrinsic_timesteps extrinsic_timesteps
    extrinsic_trials visualize goals_dataset_path (initial_state w) = (o, s') →
  (∃ e, o = Raised e)
  ∧ (quiet (trace s') → o = Raised (Exception not_a_subclass_message))
  ∧ Forall (fun ev => is_environment_setup ev = true) (trace s')
  ∧ (length (trace s') ≤ 3)%nat.
Proof.
  intros Hsub Hrun.
  cut (wp (evaluate perform fuel Controller intrinsic_timesteps
             extrinsic_timesteps extrinsic_trials visualize goals_dataset_path)
         (fun _ _ => False) rejected (initial_state w)).
  { intros H%wp_run. rewrite Hrun in H. cbn [fst snd] in H.
    destruct o as [so|e|]; [done| |].
    - destruct H as (_ & Hmsg & Hall & Hlen).
      split; [by eexists|]. split; [|done].
      intros Hq. by injection (Hmsg Hq) as ->.
    - by destruct H as ([e He] & _). }
  unfold evaluate. wp_step.
  eapply wp_mono; [by apply setup_rejects|done|done].
Qed.

End Contract.

Section UntilDone.

Context {World Obs Action : Type}.
Variable perform : forall X : Type, Call Obs Action X -> World -> (exn + X) * World.

Implicit Types (s : State World Obs Action) (tr : list (Event Obs Action)).

Lemma count_snoc (p : Event Obs Action -> bool) tr ev :
  count p (tr ++ [ev]) = (count p tr + if p ev then 1 else 0)%nat.
Proof.
  unfold count. rewrite list.filter_app, length_app. f_equal.
  cbn. by destruct (p ev).
Qed.

Lemma intrinsic_loop_done fuel observation reward steps s :
  intrinsic_loop perform fuel observation reward true steps s
  = (Returned (observation, reward, true, steps), s).
Proof. by destruct fuel. Qed.

(** The loop on its own: [k] rounds, then it returns. *)
Lemma intrinsic_loop_until_done k fuel observation reward steps s :
  done_after perform k (world s) observation reward →
  (k ≤ fuel)%nat →
  ∃ observation' reward' s',
    intrinsic_loop perform fuel observation reward false steps s
    = (Returned (observation', reward', true, (steps + k)%nat), s')
    ∧ count is_controller_step (trace s')
      = (count is_controller_step (trace s) + k)%nat
    ∧ count is_env_step (trace s') = (count is_env_step (trace s) + k)%nat.
Proof.
  revert fuel observation reward steps s.
  induction k as [|k IH]; intros fuel observation reward steps s Hdone Hfuel;
    [done|].
  destruct fuel as [|fuel]; [lia|].
  destruct Hdone as (action & w1 & observation' & reward' & done' & w2
                     & Hc & He & Hrest).
  cbn [intrinsic_loop]. unfold bind at 1. unfold call at 1. rewrite Hc.
  unfold bind at 1. unfold call at 1. cbn [world record trace scores
    evaluation_state]. rewrite He.
  unfold bind at 1. unfold emit at 1.
  cbn [world record trace scores evaluation_state].
  destruct done'.
  - subst k. rewrite intrinsic_loop_done. eexists _, _, _. split; [done|].
    cbn [trace record world scores evaluation_state].
    rewrite !count_snoc. cbn. split; lia.
  - match goal with
    | |- context [intrinsic_loop _ _ _ _ _ _ ?s1] =>
        destruct (IH fuel observation' reward' (steps + 1)%nat s1)
          as (o' & r' & s' & Hloop & Hcs & Hes); [exact Hrest | lia |]
    end.
    rewrite Hloop. eexists _, _, _.
    split; [by replace (steps + S k)%nat with (steps + 1 + k)%nat by lia|].
    rewrite Hcs, Hes. cbn [trace record world scores evaluation_state].
    rewrite !count_snoc. cbn. split; lia.
Qed.

(** C6. Whatever positive [intrinsic_timesteps] is configured, when the
    environment first signals [done] at its [k]-th step the intrinsic
    loop makes exactly [k] rounds of [controller.step] / [env.step] and
    the phase then goes on to [end_intrinsic_phase]: the loop is left on
    [done], and the budget plays no part in it. *)
Theorem intrinsic_loop_runs_until_done fuel intrinsic_timesteps k s
    observation w1 w2 :
  positive_budget intrinsic_timesteps = true →
  perform _ env_reset (world s) = (inr observation, w1) →
  perform _ start_intrinsic_phase w1 = (inr tt, w2) →
  done_after perform k w2 observation 0 →
  (k ≤ fuel)%nat →
  let s' := (intrinsic_phase perform fuel intrinsic_timesteps s).2 in
  count is_controller_step (trace s')
  = (count is_controller_step (trace s) + k)%nat
  ∧ count is_env_step (trace s') = (count is_env_step (trace s) + k)%nat
  ∧ ∃ answer, list.last (trace s') = Some (Ev end_intrinsic_phase answer).
Proof.
  intros Hpos Hreset Hstart Hdone Hfuel.
  unfold intrinsic_phase. rewrite Hpos.
  unfold banner, bind, call, emit, record.
  cbn [world trace scores evaluation_state]. rewrite Hreset.
  cbn [world trace scores evaluation_state]. rewrite Hstart.
  cbn [world trace scores evaluation_state].
  match goal with
  | |- context [intrinsic_loop _ _ _ _ _ _ ?s1] =>
      destruct (intrinsic_loop_until_done k fuel observation 0 0 s1)
        as (o' & r' & s2 & Hloop & Hcs & Hes); [exact Hdone | exact Hfuel |]
  end.
  rewrite Hloop. cbn [trace world scores evaluation_state] in Hcs, Hes |- *.
  rewrite !count_snoc in Hcs, Hes. cbn in Hcs, Hes.
  destruct (perform _ end_intrinsic_phase (world s2)) as [[e|[]] w3];
    cbn [snd trace]; rewrite !count_snoc; cbn;
    (split; [lia|]); (split; [lia|]); eexists; by rewrite last_snoc.
Qed.

(** The budgets are handed to the environment: a setup that returns has
    ended in the two assignments [env.intrinsic_timesteps = ...] and
    [env.extrinsic_timesteps = ...]. *)
Lemma setup_forwards_budgets Controller intrinsic_timesteps extrinsic_timesteps
    visualize goals_dataset_path s :
  wp (setup perform Controller intrinsic_timesteps extrinsic_timesteps
        visualize goals_dataset_path)
    (fun _ s' => ∃ tr,
       trace s' = tr ++ [Ev (env_set_intrinsic_timesteps intrinsic_timesteps) (inr tt);
                         Ev (env_set_extrinsic_timesteps extrinsic_timesteps) (inr tt)])
    (fun _ _ => True) s.
Proof.
  unfold setup.
  wp_walk (first [ exact I
                 | repeat match goal with u : unit |- _ => destruct u end;
                   eexists; by rewrite <- app_assoc ]).
Qed.

End UntilDone.

(** * Concrete runs *)

Section Concrete.

Local Open Scope nat_scope.

Lemma run_pair {World Obs Action A} (m : M World Obs Action A) s :
  m s = ((m s).1, (m s).2).
Proof. by destruct (m s). Qed.

Lemma run_returned {World Obs Action A} (m : M World Obs Action A) s a :
  (m s).1 = Returned a → m s = (Returned a, (m s).2).
Proof. destruct (m s) as [o s']. cbn. by intros ->. Qed.

Lemma two_trials_returns : ∃ so, two_trials.1 = Returned so.
Proof. eexists. vm_compute. reflexivity. Qed.

(** [end_extrinsic_trial] is called three times in a run of two trials. *)
Lemma extrinsic_phase_calls_witness :
  hooks (trace two_trials.2)
  = [h_start_extrinsic_phase;
     h_reset; h_set_goal; h_start_extrinsic_trial; h_end_extrinsic_trial;
     h_evaluateGoal;
     h_reset; h_set_goal; h_start_extrinsic_trial; h_end_extrinsic_trial;
     h_evaluateGoal;
     h_end_extrinsic_trial]
  ∧ occurrences h_start_extrinsic_trial (extrinsic_hooks 2) = 2
  ∧ occurrences h_end_extrinsic_trial (extrinsic_hooks 2) = 3.
Proof.
  destruct two_trials_returns as [so Hso].
  destruct (extrinsic_phase_calls Toy.perform 10 Toy.BasePolicy_subclass
              (BInt 0) 2000 2 false "./goals.npy.npz" (Toy.start 2 None)
              so two_trials.2 (run_returned _ _ _ Hso))
    as (Hhooks & _ & _ & _ & Hstart & Hend).
  split; [exact Hhooks|]. split; [exact Hstart | exact Hend].
Defined.

(** The run of two trials ends in [end_extrinsic_trial] and has never
    called [end_extrinsic_phase]. *)
Lemma no_end_extrinsic_phase_witness :
  (h_end_extrinsic_phase ∉ hooks (trace two_trials.2))
  ∧ list.last (hooks (trace two_trials.2)) = Some h_end_extrinsic_trial.
Proof.
  destruct two_trials_returns as [so Hso].
  exact (no_end_extrinsic_phase Toy.perform 10 Toy.BasePolicy_subclass
           (BInt 0) 2000 2 false "./goals.npy.npz" (Toy.start 2 None)
           so two_trials.2 (run_returned _ _ _ Hso)).
Defined.

(** The failing run stops on the controller's exception, in its second
    trial: the third reset never happens. *)
Lemma collaborator_failure_ends_run_witness :
  failing_second_trial.1 = Raised (Exception "controller failure")
  ∧ occurrences h_reset (hooks (trace failing_second_trial.2)) = 2
  ∧ (∀ st, evaluation_state failing_second_trial.2 = Some st →
           dict_get "state" st = Some (VStr "PENDING")).
Proof.
  destruct (collaborator_failure_ends_run Toy.perform 10
              Toy.BasePolicy_subclass (BInt 0) 2000 3 false "./goals.npy.npz"
              (Toy.start 2 (Some (2, 1)))
              failing_second_trial.1 failing_second_trial.2 (run_pair _ _))
    as [Hlast Hstate].
  destruct (Hlast (removelast (trace failing_second_trial.2))
              (Ev (controller_step 1 1%Qc false)
                  (inl (Exception "controller failure")))
              [] (Exception "controller failure")) as [_ Ho].
  - vm_compute. reflexivity.
  - reflexivity.
  - split; [exact Ho|]. split; [vm_compute; reflexivity | exact Hstate].
Defined.

(** C4 fails as stated: the run that fails in its second trial leaves
    the "state" of [evaluation_state] at "PENDING", not "ERROR". *)
Lemma overall_state_not_ERROR :
  failing_second_trial.1 = Raised (Exception "controller failure")
  ∧ ∃ st, evaluation_state failing_second_trial.2 = Some st
          ∧ dict_get "state" st = Some (VStr "PENDING")
          ∧ dict_get "state" st ≠ Some (VStr "ERROR").
Proof.
  split; [vm_compute; reflexivity|].
  eexists. split; [vm_compute; reflexivity|].
  split; [reflexivity | discriminate].
Qed.

(** C5 fails as stated: with [intrinsic_timesteps = 0] the run returns,
    and its [evaluation_state] has no [intrinsic_phase_state], reads
    "PENDING", and holds no "SKIPPED" value anywhere. *)
Lemma intrinsic_phase_state_not_SKIPPED :
  (∃ so, two_trials.1 = Returned so)
  ∧ ∃ st, evaluation_state two_trials.2 = Some st
          ∧ dict_get "intrinsic_phase_state" st = None
          ∧ dict_get "state" st = Some (VStr "PENDING")
          ∧ Forall (fun kv => kv.2 ≠ VStr "SKIPPED"
                              ∧ kv.2 ≠ VStr "INTRINSIC_PHASE_SKIPPED") st.
Proof.
  split; [exact two_trials_returns|].
  eexists. split; [vm_compute; reflexivity|].
  split; [reflexivity|]. split; [reflexivity|].
  repeat constructor; discriminate.
Qed.

(** With [intrinsic_timesteps = 0], the fifth call of the run, which
    comes before [start_extrinsic_phase], is a set-up call; after the six
    set-up calls come the warning, the banner and [start_extrinsic_phase]. *)
Lemma intrinsic_phase_skipped_witness :
  (begins_extrinsic_phase
     (Ev (Obs := nat) (Action := nat) (env_set_extrinsic_timesteps 2000) (inr tt))
   = true
   ∨ is_interaction
       (Ev (Obs := nat) (Action := nat) (env_set_extrinsic_timesteps 2000) (inr tt))
     = false)
  ∧ (∃ (answer : exn + unit) rest,
       trace two_trials.2
       = trace two_trials_setup.2
         ++ [Out (print "[WARNING] Skipping Intrinsic Phase as intrinsic_timesteps = 0 or False");
             Out (tqdm extrinsic_phase_progress_bar);
             Out (bar_write extrinsic_phase_progress_bar
                    "######################################################");
             Out (bar_write extrinsic_phase_progress_bar
                    "# Extrinsic Phase Initiated");
             Out (bar_write extrinsic_phase_progress_bar
                    "######################################################");
             Ev start_extrinsic_phase answer]
         ++ rest)
  ∧ (∀ st, evaluation_state two_trials.2 = Some st →
           dict_get "intrinsic_phase_state" st = None
           ∧ dict_get "state" st = Some (VStr "PENDING")).
Proof.
  destruct (intrinsic_phase_skipped Toy.perform 10 Toy.BasePolicy_subclass
              (BInt 0) 2000 2 false "./goals.npy.npz" (Toy.start 2 None)
              two_trials.1 two_trials.2 (or_introl eq_refl) (run_pair _ _))
    as (Hbefore & Hon & Hstate).
  split; [|split; [|exact Hstate]].
  - apply (Hbefore (take 4 (trace two_trials.2)) _ (drop 5 (trace two_trials.2))).
    + vm_compute. reflexivity.
    + vm_compute. repeat constructor.
  - apply (Hon two_trials_setup.2). apply run_returned.
    vm_compute. reflexivity.
Defined.

(** A class that is no policy: the run raises the contract violation
    after the two calls that make the environment. *)
Lemma not_a_subclass_fails_witness :
  no_policy.1 = Raised (Exception not_a_subclass_message)
  ∧ length (trace no_policy.2) = 2.
Proof.
  destruct (not_a_subclass_fails Toy.perform 10 Toy.not_a_policy
              (BInt 0) 2000 2 false "./goals.npy.npz" (Toy.start 2 None)
              no_policy.1 no_policy.2 eq_refl (run_pair _ _))
    as (_ & Hmsg & _ & _).
  split; [|vm_compute; reflexivity].
  apply Hmsg. vm_compute. repeat constructor.
Defined.

(** The budget is 1 step, the environment signals [done] at its third
    step: the loop makes three rounds. *)
Lemma intrinsic_loop_runs_until_done_witness :
  let s' := (intrinsic_phase Toy.perform 5 (BInt 1)
               (initial_state (Toy.start 3 None))).2 in
  count is_controller_step (trace s') = 3
  ∧ count is_env_step (trace s') = 3.
Proof.
  destruct (intrinsic_loop_runs_until_done Toy.perform 5 (BInt 1) 3
              (initial_state (Toy.start 3 None)) 0
              (Toy.mkWorld 3 None 1 0) (Toy.mkWorld 3 None 1 0))
    as (Hc & He & _).
  - reflexivity.
  - reflexivity.
  - reflexivity.
  - vm_compute.
    do 2 (eexists _, _, _, _, _, _; split; [reflexivity|];
          split; [reflexivity|]; cbv beta iota).
    eexists _, _, _, _, _, _. split; [reflexivity|]. split; reflexivity.
  - lia.
  - split; [exact Hc | exact He].
Defined.

(** In the run of two trials, the first [controller.step] after the
    first reset is handed reward 0. *)
Lemma controller_step_arguments_witness :
  let tr := trace two_trials.2 in
  ∃ reward : Qc,
    tr = take 11 tr ++ Ev env_reset (inr 0)
           :: take 3 (drop 12 tr)
           ++ Ev (controller_step 0 reward false) (inr 0) :: drop 16 tr
    ∧ reward = 0%Qc.
Proof.
  intros tr. exists 0%Qc.
  assert (Htr : tr = take 11 tr ++ Ev env_reset (inr 0)
                       :: take 3 (drop 12 tr)
                       ++ Ev (controller_step 0 0%Qc false) (inr 0) :: drop 16 tr)
    by (vm_compute; reflexivity).
  split; [exact Htr|].
  refine (proj2 (controller_step_arguments Toy.perform 10
                   Toy.BasePolicy_subclass (BInt 0) 2000 2 false
                   "./goals.npy.npz" (Toy.start 2 None))
            _ _ _ _ _ _ _ _ Htr _).
  intros ev Hin. vm_compute in Hin.
  apply list_elem_of_In in Hin. cbn in Hin.
  destruct Hin as [<-|[<-|[<-|[]]]]; reflexivity.
Defined.

End Concrete.

(** * Further properties of the score aggregator *)

Section LedgerProperties.

Implicit Types (scores : Ledger.t) (key : string) (results : list Qc).

(** [add_scores] never raises: it appends the score at the end of the
    label's sequence, starting the sequence when the label is new, and
    leaves the sequence of every other label as it was. *)
Lemma add_scores_appends key (v : Qc) scores :
  ∃ scores' : Ledger.t,
    add_scores key v scores = (Some tt, scores')
    ∧ scores' !! key = Some (default [] (scores !! key) ++ [v])
    ∧ ∀ key', key' ≠ key → scores' !! key' = scores !! key'.
Proof.
  eexists. split; [apply add_scores_eq|]. split.
  - apply lookup_insert_eq.
  - intros key' Hne. by apply lookup_insert_ne.
Qed.

(** Running a sequence of results never raises and keeps the sequences of
    the ledger non-empty. *)
Lemma record_results_nonempty snapshot (trials : list (string * Qc)) scores :
  (∀ k results, scores !! k = Some results → results ≠ []) →
  ∃ scores' : Ledger.t,
    record_results snapshot trials scores = (Some tt, scores')
    ∧ ∀ k results, scores' !! k = Some results → results ≠ [].
Proof.
  revert scores. induction trials as [|[challenge score] rest IH];
    intros scores Hinv.
  - by exists scores.
  - cbn [record_results]. unfold Ledger.bind at 1.
    pose proof (add_scores_nonempty challenge score scores Hinv) as Hinv'.
    rewrite add_scores_eq in Hinv' |- *. cbn [snd] in Hinv'.
    unfold Ledger.bind at 1.
    destruct snapshot.
    + unfold Ledger.bind at 1. rewrite build_score_object_eq.
      unfold Ledger.ret at 1. by apply IH.
    + unfold Ledger.ret at 1. by apply IH.
Qed.

(** X2. The ledger of a run, built from the empty ledger by [add_scores]
    with or without a snapshot after each result, holds no empty
    sequence: every label it has a key for has at least one score, so
    that [build_score_object] never takes the mean of an empty sequence
    on it. *)
Theorem run_ledger_has_no_empty_sequence snapshot (trials : list (string * Qc)) :
  ∃ scores : Ledger.t,
    record_results snapshot trials ∅ = (Some tt, scores)
    ∧ ∀ key results, scores !! key = Some results → results ≠ [].
Proof.
  apply record_results_nonempty. intros k results. by rewrite lookup_empty.
Qed.

Lemma num_add_NaN_l (a : num) : num_add NaN a = NaN.
Proof. done. Qed.

Lemma num_add_NaN_r (a : num) : num_add a NaN = NaN.
Proof. by destruct a. Qed.

(** X3. A label of the fixed set whose sequence in the ledger is empty
    makes [np.mean] answer [nan]: that label's score is [nan], and so is
    [score_total]. *)
Theorem empty_sequence_gives_nan scores key :
  key ∈ challenges →
  scores !! key = Some [] →
  ∃ so : ScoreObject,
    build_score_object scores = (Some so, scores)
    ∧ so !! score_field key = Some NaN
    ∧ so !! "score_total"%string = Some NaN.
Proof.
  intros Hkey Hempty. eexists. split; [apply build_score_object_eq|].
  pose proof (challenge_score_empty_sequence _ _ Hempty) as Hnan.
  apply list_elem_of_In in Hkey. cbn in Hkey.
  destruct Hkey as [<-|[<-|[<-|[]]]]; unfold total_score; rewrite Hnan;
    rewrite ?num_add_NaN_r, ?num_add_NaN_l; cbn [num_div];
    (split; [by vm_compute (score_field _); simplify_map_eq | by simplify_map_eq]).
Qed.

(** X4. Only the three fixed labels are read: what the ledger holds under
    any other label has no effect on the score object. *)
Theorem other_labels_ignored scores key results :
  key ∉ challenges →
  (build_score_object (<[key := results]> scores)).1
  = (build_score_object scores).1.
Proof.
  intros Hkey. rewrite !build_score_object_eq. cbn [fst].
  assert (Hsame : ∀ k, k ∈ challenges →
    challenge_score (<[key := results]> scores) k = challenge_score scores k).
  { intros k Hk. apply challenge_score_other. by intros ->. }
  unfold total_score.
  by rewrite !Hsame by (repeat constructor).
Qed.

End LedgerProperties.

Section RunLedger.

Implicit Types (scores : Ledger.t) (key : string) (results : list Qc)
  (trials : list (string * Qc)).

Lemma scores_under_cons key challenge (score : Qc) trials :
  scores_under key ((challenge, score) :: trials)
  = if decide (challenge = key) then score :: scores_under key trials
    else scores_under key trials.
Proof.
  unfold scores_under. rewrite filter_cons. cbn [fst].
  by destruct (decide (challenge = key)).
Qed.

Lemma record_results_ledger snapshot trials scores :
  ∃ scores' : Ledger.t,
    record_results snapshot trials scores = (Some tt, scores')
    ∧ ∀ key,
        default [] (scores' !! key)
        = default [] (scores !! key) ++ scores_under key trials
        ∧ (scores' !! key = None ↔
           scores !! key = None ∧ scores_under key trials = []).
Proof.
  revert scores. induction trials as [|[challenge score] rest IH]; intros scores.
  - exists scores. split; [done|]. intros key. rewrite app_nil_r.
    split; [done|]. split; [by intros ->|by intros [-> _]].
  - cbn [record_results]. unfold Ledger.bind at 1. rewrite add_scores_eq.
    unfold Ledger.bind at 1.
    assert (Hsnap :
      (if snapshot
       then (_ <- build_score_object ;; Ledger.ret tt)%ledger
       else Ledger.ret tt)
        (<[challenge := default [] (scores !! challenge) ++ [score]]> scores)
      = (Some tt, <[challenge := default [] (scores !! challenge) ++ [score]]> scores)).
    { destruct snapshot; [|done].
      unfold Ledger.bind. by rewrite build_score_object_eq. }
    rewrite Hsnap.
    destruct (IH (<[challenge := default [] (scores !! challenge) ++ [score]]> scores))
      as (scores' & Hrun & Hkeys).
    exists scores'. split; [exact Hrun|].
    intros key. destruct (Hkeys key) as [Hval Hnone].
    rewrite scores_under_cons.
    destruct (decide (challenge = key)) as [->|Hne].
    + rewrite lookup_insert_eq in Hval, Hnone. cbn in Hval.
      split; [by rewrite Hval, <- app_assoc|].
      split; [by intros [? _]%Hnone | by intros [_ ?]].
    + rewrite lookup_insert_ne in Hval, Hnone by done. done.
Qed.

(** X1. The ledger a run builds from the empty ledger groups the trial
    scores by label and keeps the trial order: under each label it holds
    exactly the scores of the trials with that label, in order, and it has
    no entry for a label no trial carried. *)
Theorem run_ledger_groups_by_label snapshot trials :
  ∃ scores : Ledger.t,
    record_results snapshot trials ∅ = (Some tt, scores)
    ∧ ∀ key,
        (scores_under key trials = [] → scores !! key = None)
        ∧ (scores_under key trials ≠ [] →
           scores !! key = Some (scores_under key trials)).
Proof.
  destruct (record_results_ledger snapshot trials ∅) as (scores & Hrun & Hkeys).
  exists scores. split; [exact Hrun|]. intros key.
  destruct (Hkeys key) as [Hval Hnone].
  rewrite lookup_empty in Hval, Hnone. cbn [default app] in Hval.
  split.
  - intros Hempty. by apply Hnone.
  - intros Hsome. destruct (scores !! key) as [l|] eqn:E.
    + cbn in Hval. by rewrite Hval.
    + destruct Hsome. by apply Hnone.
Qed.

End RunLedger.

(** * The result of a run *)

Section Result.

Context {World Obs Action : Type}.
Variable perform : forall X : Type, Call Obs Action X -> World -> (exn + X) * World.

Implicit Types (s : State World Obs Action) (tr : list (Event Obs Action)).

Lemma goals_snoc tr (ev : Event Obs Action) :
  goals (tr ++ [ev]) = goals tr ++ (if goal_of ev is Some p then [p] else []).
Proof. unfold goals. rewrite omap_app. cbn. by destruct (goal_of ev). Qed.

Lemma record_results_app (t1 t2 : list (string * Qc)) (l : Ledger.t) :
  (record_results false (t1 ++ t2) l).2
  = (record_results false t2 (record_results false t1 l).2).2.
Proof.
  revert l. induction t1 as [|[challenge score] t1 IH]; intros l; [done|].
  cbn [app record_results]. unfold Ledger.bind at 1 3.
  rewrite add_scores_eq. unfold Ledger.bind at 1 2.
  unfold Ledger.ret at 1 2. apply IH.
Qed.

Lemma ledger_of_snoc (results : list (string * Qc)) challenge (score : Qc) :
  ledger_of (results ++ [(challenge, score)])
  = <[challenge := default [] (ledger_of results !! challenge) ++ [score]]>
      (ledger_of results).
Proof.
  unfold ledger_of. rewrite record_results_app.
  cbn [record_results]. unfold Ledger.bind at 1. rewrite add_scores_eq.
  by unfold Ledger.bind, Ledger.ret.
Qed.

Local Ltac tally :=
  idtac;
  lazymatch goal with
  | |- tallied _ _ =>
      unfold tallied in *; wp_simpl; rewrite ?goals_snoc;
      cbn [goal_of]; rewrite ?app_nil_r;
      match goal with
      | H : _ ∧ _ |- _ => exact H
      | H1 : length (goals _) = _, H2 : scores _ = _ |- _ => by split
      end
  | |- True => exact I
  end.

(** Walk up to the next aggregation. *)
Local Ltac walk_to_build :=
  repeat lazymatch goal with
         | |- wp (on_scores build_score_object) _ _ _ => fail
         | |- _ => wp_step; try (solve [tally])
         end.

Local Abbreviation anyhow := (fun (_ : option exn) (_ : State World Obs Action) => True).

Lemma intrinsic_loop_tallied n fuel observation reward done steps s :
  tallied n s →
  wp (intrinsic_loop perform fuel observation reward done steps)
    (fun _ => tallied n) anyhow s.
Proof.
  revert observation reward done steps s.
  induction fuel as [|fuel IH]; intros observation reward done steps s Hs;
    (destruct done; cbn [intrinsic_loop]; [by wp_step|]).
  - by wp_step.
  - wp_walk tally. apply IH. tally.
Qed.

Lemma extrinsic_loop_tallied n fuel k observation reward done s :
  tallied n s →
  wp (extrinsic_loop perform fuel k observation reward done)
    (fun _ => tallied n) anyhow s.
Proof.
  revert observation reward done s.
  induction fuel as [|fuel IH]; intros observation reward done s Hs;
    (destruct done; cbn [extrinsic_loop]; [by wp_step|]).
  - by wp_step.
  - wp_walk tally. apply IH. tally.
Qed.

Lemma extrinsic_trial_tallied n fuel k s :
  tallied n s →
  wp (extrinsic_trial perform fuel k) (fun _ => tallied (S n)) anyhow s.
Proof.
  intros Hs. unfold extrinsic_trial. wp_walk tally.
  eapply wp_mono; [apply (extrinsic_loop_tallied n); tally| |done].
  intros ? s' [Hlen Hscores]. cbv beta. wp_walk tally.
  unfold tallied. wp_simpl. rewrite !goals_snoc. cbn [goal_of].
  rewrite !app_nil_r. split.
  - rewrite length_app. cbn. lia.
  - by rewrite ledger_of_snoc, Hscores.
Qed.

Lemma for_each_tallied fuel ks n s :
  tallied n s →
  wp (for_each ks (extrinsic_trial perform fuel))
    (fun _ => tallied (n + length ks)) anyhow s.
Proof.
  revert n s. induction ks as [|k ks IH]; intros n s Hs; cbn [for_each].
  - wp_step. cbn. by rewrite Nat.add_0_r.
  - wp_step. eapply wp_mono; [apply (extrinsic_trial_tallied n); exact Hs| |done].
    intros ? s' Hs'. cbv beta.
    eapply wp_mono; [apply (IH (S n)); exact Hs'| |done].
    intros ? s'' Hs''. cbn [length]. by rewrite Nat.add_succ_r.
Qed.

Lemma extrinsic_phase_tallied fuel extrinsic_trials n s :
  tallied n s →
  wp (extrinsic_phase perform fuel extrinsic_trials)
    (fun so s' =>
       tallied (n + Z.to_nat extrinsic_trials) s'
       ∧ build_score_object (scores s') = (Some so, scores s'))
    anyhow s.
Proof.
  intros Hs. unfold extrinsic_phase. wp_walk tally.
  eapply wp_mono; [apply (for_each_tallied _ _ n); tally| |done].
  intros ? s' Hs'. cbv beta. unfold range in Hs'. rewrite length_seq in Hs'.
  walk_to_build. apply wp_build_score_object. intros snapshot _. wp_simpl.
  walk_to_build. apply wp_build_score_object. intros so Hso. wp_simpl.
  split; [tally | exact Hso].
Qed.

Lemma intrinsic_phase_tallied fuel intrinsic_timesteps n s :
  tallied n s →
  wp (intrinsic_phase perform fuel intrinsic_timesteps)
    (fun _ => tallied n) anyhow s.
Proof.
  intros Hs. unfold intrinsic_phase. wp_walk tally.
  eapply wp_mono; [apply (intrinsic_loop_tallied n); tally| |done].
  intros ? s' Hs'. cbv beta. wp_walk tally.
Qed.

Lemma setup_tallied Controller intrinsic_timesteps extrinsic_timesteps
    visualize goals_dataset_path n s :
  tallied n s →
  wp (setup perform Controller intrinsic_timesteps extrinsic_timesteps
        visualize goals_dataset_path)
    (fun _ => tallied n) anyhow s.
Proof. intros Hs. unfold setup. wp_walk tally. Qed.

(** What a run that returns has scored. *)
Lemma evaluate_tallied fuel Controller intrinsic_timesteps extrinsic_timesteps
    extrinsic_trials visualize goals_dataset_path (w : World) so s' :
  evaluate perform fuel Controller intrinsic_timesteps extrinsic_timesteps
    extrinsic_trials visualize goals_dataset_path (initial_state w)
  = (Returned so, s') →
  tallied (Z.to_nat extrinsic_trials) s'
  ∧ build_score_object (scores s') = (Some so, scores s').
Proof.
  intros Hrun.
  cut (wp (evaluate perform fuel Controller intrinsic_timesteps
             extrinsic_timesteps extrinsic_trials visualize goals_dataset_path)
         (fun so s' =>
            tallied (0 + Z.to_nat extrinsic_trials) s'
            ∧ build_score_object (scores s') = (Some so, scores s'))
         anyhow (initial_state w)).
  { intros H%wp_run. by rewrite Hrun in H. }
  unfold evaluate. wp_step.
  eapply wp_mono; [apply (setup_tallied _ _ _ _ _ 0); by split| |done].
  intros ? s1 [Hlen1 Hs1]. cbv beta. wp_step. wp_step. wp_step. wp_step.
  assert (Hgoals : goals (trace s1) = []) by (by apply length_zero_iff_nil).
  wp_step.
  eapply wp_mono; [apply (intrinsic_phase_tallied _ _ 0)| |done].
  { split; wp_simpl; [done|]. by rewrite Hgoals. }
  intros ? s2 Hs2. cbv beta.
  by apply extrinsic_phase_tallied.
Qed.

(** X7. The score object a run returns is the aggregation of exactly the
    (difficulty, score) pairs its [evaluateGoal] calls answered, appended
    to an empty ledger in trial order; there is one pair per trial. *)
Theorem evaluate_returns_aggregate fuel Controller intrinsic_timesteps
    extrinsic_timesteps extrinsic_trials visualize goals_dataset_path
    (w : World) so s' :
  evaluate perform fuel Controller intrinsic_timesteps extrinsic_timesteps
    extrinsic_trials visualize goals_dataset_path (initial_state w)
  = (Returned so, s') →
  length (goals (trace s')) = Z.to_nat extrinsic_trials
  ∧ ∃ scores : Ledger.t,
      record_results false (goals (trace s')) ∅ = (Some tt, scores)
      ∧ build_score_object scores = (Some so, scores).
Proof.
  intros [[Hlen Hscores] Hso]%evaluate_tallied. split; [exact Hlen|].
  destruct (record_results_ledger false (goals (trace s')) ∅)
    as (scores & Hrun & _).
  exists scores. split; [exact Hrun|].
  unfold ledger_of in Hscores. rewrite Hrun in Hscores. cbn [snd] in Hscores.
  by rewrite <- Hscores.
Qed.

End Result.

(** * The phases of a run *)

Section Phases.

Context {World Obs Action : Type}.
Variable perform : forall X : Type, Call Obs Action X -> World -> (exn + X) * World.

Implicit Types (s : State World Obs Action) (tr : list (Event Obs Action)).

Lemma occurrences_intrinsic h intrinsic_timesteps :
  occurrences h (intrinsic_hooks intrinsic_timesteps)
  = if positive_budget intrinsic_timesteps
    then occurrences h [h_reset; h_start_intrinsic_phase; h_end_intrinsic_phase]
    else O.
Proof. unfold intrinsic_hooks. by destruct (positive_budget _). Qed.

(** X8. In every run that returns, the intrinsic phase is entered exactly
    when the budget is positive ([True] counts as 1, a negative budget as
    none): it is then reset, [start_intrinsic_phase], [end_intrinsic_phase],
    each called once, all before [start_extrinsic_phase], which is called
    exactly once in either case. *)
Theorem phases_run_once_in_order fuel Controller intrinsic_timesteps
    extrinsic_timesteps extrinsic_trials visualize goals_dataset_path
    (w : World) so s' :
  evaluate perform fuel Controller intrinsic_timesteps extrinsic_timesteps
    extrinsic_trials visualize goals_dataset_path (initial_state w)
  = (Returned so, s') →
  (∃ rest,
     hooks (trace s')
     = (if positive_budget intrinsic_timesteps
        then [h_reset; h_start_intrinsic_phase; h_end_intrinsic_phase]
        else [])
       ++ h_start_extrinsic_phase :: rest)
  ∧ occurrences h_start_intrinsic_phase (hooks (trace s'))
    = (if positive_budget intrinsic_timesteps then 1 else 0)%nat
  ∧ occurrences h_end_intrinsic_phase (hooks (trace s'))
    = (if positive_budget intrinsic_timesteps then 1 else 0)%nat
  ∧ occurrences h_start_extrinsic_phase (hooks (trace s')) = 1%nat.
Proof.
  intros Hrun%evaluate_hooks. rewrite Hrun. split; [by eexists|].
  rewrite !occurrences_app, !occurrences_extrinsic, !occurrences_intrinsic.
  repeat match goal with
  | |- context [occurrences ?h ?l] =>
      let v := eval vm_compute in (occurrences h l) in
      change (occurrences h l) with v
  end.
  destruct (positive_budget intrinsic_timesteps); repeat split; lia.
Qed.

(** X9. With a trial count of zero or less the [for] loop makes no turn:
    a run that returns has scored nothing, its four scores are 0, and the
    extrinsic phase is [start_extrinsic_phase] followed at once by the
    closing [end_extrinsic_trial]. *)
Theorem no_trials_scores_zero fuel Controller intrinsic_timesteps
    extrinsic_timesteps extrinsic_trials visualize goals_dataset_path
    (w : World) so s' :
  (extrinsic_trials ≤ 0)%Z →
  evaluate perform fuel Controller intrinsic_timesteps extrinsic_timesteps
    extrinsic_trials visualize goals_dataset_path (initial_state w)
  = (Returned so, s') →
  hooks (trace s')
  = intrinsic_hooks intrinsic_timesteps
    ++ [h_start_extrinsic_phase; h_end_extrinsic_trial]
  ∧ scores s' = ∅
  ∧ so !! "score_2D"%string = Some (Fin 0)
  ∧ so !! "score_2.5D"%string = Some (Fin 0)
  ∧ so !! "score_3D"%string = Some (Fin 0)
  ∧ so !! "score_total"%string = Some (Fin 0).
Proof.
  intros Hn Hrun.
  assert (HN : Z.to_nat extrinsic_trials = O) by lia.
  split.
  - apply evaluate_hooks in Hrun. rewrite Hrun. unfold extrinsic_hooks.
    by rewrite HN.
  - apply (evaluate_tallied perform) in Hrun as [[Hlen Hscores] Hso].
    rewrite HN in Hlen. apply length_zero_iff_nil in Hlen.
    rewrite Hlen in Hscores. change (ledger_of []) with (∅ : Ledger.t) in Hscores.
    split; [exact Hscores|].
    rewrite Hscores, build_score_object_eq in Hso. injection Hso as <-.
    unfold total_score, challenge_score. rewrite !lookup_empty, all_zero_total.
    by simplify_map_eq.
Qed.

Local Ltac setup_solve :=
  idtac;
  lazymatch goal with
  | |- configured _ _ =>
      unfold configured, setup_calls in *; wp_simpl; rewrite ?omap_app;
      cbn [omap list_omap setup_call_of]; rewrite ?app_nil_r;
      match goal with
      | H : omap setup_call_of _ = _ |- _ =>
          rewrite H; rewrite <- ?app_assoc; reflexivity
      end
  | |- True => exact I
  end.

Local Abbreviation anyhow := (fun (_ : option exn) (_ : State World Obs Action) => True).

Lemma intrinsic_loop_configured cs fuel observation reward done steps s :
  configured cs s →
  wp (intrinsic_loop perform fuel observation reward done steps)
    (fun _ => configured cs) anyhow s.
Proof.
  revert observation reward done steps s.
  induction fuel as [|fuel IH]; intros observation reward done steps s Hs;
    (destruct done; cbn [intrinsic_loop]; [by wp_step|]).
  - by wp_step.
  - wp_walk setup_solve. apply IH. setup_solve.
Qed.

Lemma extrinsic_loop_configured cs fuel k observation reward done s :
  configured cs s →
  wp (extrinsic_loop perform fuel k observation reward done)
    (fun _ => configured cs) anyhow s.
Proof.
  revert observation reward done s.
  induction fuel as [|fuel IH]; intros observation reward done s Hs;
    (destruct done; cbn [extrinsic_loop]; [by wp_step|]).
  - by wp_step.
  - wp_walk setup_solve. apply IH. setup_solve.
Qed.

Lemma extrinsic_trial_configured cs fuel k s :
  configured cs s →
  wp (extrinsic_trial perform fuel k) (fun _ => configured cs) anyhow s.
Proof.
  intros Hs. unfold extrinsic_trial. wp_walk setup_solve.
  eapply wp_mono; [apply (extrinsic_loop_configured cs); setup_solve| |done].
  intros ? s' Hs'. cbv beta. wp_walk setup_solve.
Qed.

Lemma for_each_configured cs fuel ks s :
  configured cs s →
  wp (for_each ks (extrinsic_trial perform fuel)) (fun _ => configured cs) anyhow s.
Proof.
  revert s. induction ks as [|k ks IH]; intros s Hs; cbn [for_each].
  - by wp_step.
  - wp_step. eapply wp_mono; [apply (extrinsic_trial_configured cs); exact Hs| |done].
    intros ? s' Hs'. by apply IH.
Qed.

Lemma extrinsic_phase_configured cs fuel extrinsic_trials s :
  configured cs s →
  wp (extrinsic_phase perform fuel extrinsic_trials)
    (fun _ => configured cs) anyhow s.
Proof.
  intros Hs. unfold extrinsic_phase. wp_walk setup_solve.
  eapply wp_mono; [apply (for_each_configured cs); setup_solve| |done].
  intros ? s' Hs'. cbv beta. wp_walk setup_solve.
Qed.

Lemma intrinsic_phase_configured cs fuel intrinsic_timesteps s :
  configured cs s →
  wp (intrinsic_phase perform fuel intrinsic_timesteps)
    (fun _ => configured cs) anyhow s.
Proof.
  intros Hs. unfold intrinsic_phase. wp_walk setup_solve.
  eapply wp_mono; [apply (intrinsic_loop_configured cs); setup_solve| |done].
  intros ? s' Hs'. cbv beta. wp_walk setup_solve.
Qed.

Lemma setup_configured Controller intrinsic_timesteps extrinsic_timesteps
    visualize goals_dataset_path s :
  configured [] s →
  wp (setup perform Controller intrinsic_timesteps extrinsic_timesteps
        visualize goals_dataset_path)
    (fun _ =>
       configured
         ([s_gym_make "REALRobot-v0";
           s_set_goals_dataset_path goals_dataset_path]
          ++ (if visualize then [s_render "human"] else [])
          ++ [s_new_controller;
              s_set_intrinsic_timesteps intrinsic_timesteps;
              s_set_extrinsic_timesteps extrinsic_timesteps]))
    anyhow s.
Proof. intros Hs. unfold setup. destruct visualize; wp_walk setup_solve. Qed.

(** X12. A run that returns has set up exactly once and in this order:
    [gym.make('REALRobot-v0')], [set_goals_dataset_path] with the path
    given, [render('human')] exactly when [visualize] is set, the
    controller's construction, and the two budgets assigned to the
    environment as they were given (a budget [False] is handed on as
    [False], not as 0). *)
Theorem setup_calls_of_a_run fuel Controller intrinsic_timesteps
    extrinsic_timesteps extrinsic_trials visualize goals_dataset_path
    (w : World) so s' :
  evaluate perform fuel Controller intrinsic_timesteps extrinsic_timesteps
    extrinsic_trials visualize goals_dataset_path (initial_state w)
  = (Returned so, s') →
  setup_calls (trace s')
  = [s_gym_make "REALRobot-v0"; s_set_goals_dataset_path goals_dataset_path]
    ++ (if visualize then [s_render "human"] else [])
    ++ [s_new_controller;
        s_set_intrinsic_timesteps intrinsic_timesteps;
        s_set_extrinsic_timesteps extrinsic_timesteps].
Proof.
  intros Hrun.
  set (cs := [s_gym_make "REALRobot-v0"; s_set_goals_dataset_path goals_dataset_path]
    ++ (if visualize then [s_render "human"] else [])
    ++ [s_new_controller;
        s_set_intrinsic_timesteps intrinsic_timesteps;
        s_set_extrinsic_timesteps extrinsic_timesteps]).
  cut (wp (evaluate perform fuel Controller intrinsic_timesteps
             extrinsic_timesteps extrinsic_trials visualize goals_dataset_path)
         (fun _ => configured cs) anyhow (initial_state w)).
  { intros H%wp_run. by rewrite Hrun in H. }
  unfold evaluate. wp_step.
  eapply wp_mono; [by apply setup_configured| |done].
  intros ? s1 Hs1. cbv beta. fold cs in Hs1. wp_walk setup_solve.
  eapply wp_mono; [apply (intrinsic_phase_configured cs); setup_solve| |done].
  intros ? s2 Hs2. cbv beta.
  by apply extrinsic_phase_configured.
Qed.

End Phases.

(** * What the step loops hand on *)

Section DataFlow.

Context {World Obs Action : Type}.
Variable perform : forall X : Type, Call Obs Action X -> World -> (exn + X) * World.

Implicit Types (s : State World Obs Action) (tr : list (Event Obs Action)).

Lemma last_feedback_snoc tr (ev : Event Obs Action) :
  last_feedback (tr ++ [ev])
  = if feedback_of ev is Some p then Some p else last_feedback tr.
Proof.
  unfold last_feedback. rewrite omap_app. cbn.
  destruct (feedback_of ev); [by rewrite last_snoc | by rewrite app_nil_r].
Qed.

Lemma last_action_snoc tr (ev : Event Obs Action) :
  last_action (tr ++ [ev])
  = if action_of ev is Some a then Some a else last_action tr.
Proof.
  unfold last_action. rewrite omap_app. cbn.
  destruct (action_of ev); [by rewrite last_snoc | by rewrite app_nil_r].
Qed.

Lemma flows_nil : flows ([] : list (Event Obs Action)).
Proof. intros [|? before] ev after Heq; discriminate Heq. Qed.

Lemma flows_snoc tr (ev : Event Obs Action) :
  flows tr → fed tr ev → flows (tr ++ [ev]).
Proof.
  intros Htr Hev before ev' after Heq.
  destruct after as [|x after _] using rev_ind.
  - apply app_inj_tail in Heq as [-> ->]. exact Hev.
  - change (before ++ ev' :: after ++ [x])
      with (before ++ (ev' :: after) ++ [x]) in Heq.
    rewrite app_assoc in Heq. apply app_inj_tail in Heq as [-> _].
    by eapply Htr.
Qed.

Local Ltac flow_solve :=
  first [ eassumption
        | apply flows_snoc;
          [flow_solve
          | cbn [fed]; first [exact I | eassumption
                             | by rewrite ?last_action_snoc, ?last_feedback_snoc] ] ].

Local Ltac flow :=
  idtac;
  lazymatch goal with
  | |- flows _ => wp_simpl; flow_solve
  | |- primed _ _ _ =>
      unfold primed in *; wp_simpl;
      split; [flow_solve
             | rewrite ?last_feedback_snoc; cbn [feedback_of]; done]
  end.

Local Abbreviation flowing :=
  (fun (_ : option exn) (s : State World Obs Action) => flows (trace s)).

Lemma intrinsic_loop_flows fuel observation reward done steps s :
  primed observation reward s →
  wp (intrinsic_loop perform fuel observation reward done steps)
    (fun _ s' => flows (trace s')) flowing s.
Proof.
  revert observation reward done steps s.
  induction fuel as [|fuel IH]; intros observation reward done steps s [Hf Hl];
    (destruct done; cbn [intrinsic_loop]; [by wp_step|]).
  - by wp_step.
  - wp_walk flow. apply IH. flow.
Qed.

Lemma extrinsic_loop_flows fuel k observation reward done s :
  primed observation reward s →
  wp (extrinsic_loop perform fuel k observation reward done)
    (fun _ s' => flows (trace s')) flowing s.
Proof.
  revert observation reward done s.
  induction fuel as [|fuel IH]; intros observation reward done s [Hf Hl];
    (destruct done; cbn [extrinsic_loop]; [by wp_step|]).
  - by wp_step.
  - wp_walk flow. apply IH. flow.
Qed.

Lemma extrinsic_trial_flows fuel k s :
  flows (trace s) →
  wp (extrinsic_trial perform fuel k) (fun _ s' => flows (trace s')) flowing s.
Proof.
  intros Hs. unfold extrinsic_trial. wp_walk flow.
  eapply wp_mono; [apply extrinsic_loop_flows; flow| |done].
  intros ? s' Hs'. cbv beta. wp_walk flow.
Qed.

Lemma for_each_flows fuel ks s :
  flows (trace s) →
  wp (for_each ks (extrinsic_trial perform fuel))
    (fun _ s' => flows (trace s')) flowing s.
Proof.
  revert s. induction ks as [|k ks IH]; intros s Hs; cbn [for_each].
  - by wp_step.
  - wp_step. eapply wp_mono; [by apply extrinsic_trial_flows| |done].
    intros ? s' Hs'. by apply IH.
Qed.

Lemma extrinsic_phase_flows fuel extrinsic_trials s :
  flows (trace s) →
  wp (extrinsic_phase perform fuel extrinsic_trials)
    (fun _ s' => flows (trace s')) flowing s.
Proof.
  intros Hs. unfold extrinsic_phase. wp_walk flow.
  eapply wp_mono; [apply for_each_flows; flow| |done].
  intros ? s' Hs'. cbv beta. wp_walk flow.
Qed.

Lemma intrinsic_phase_flows fuel intrinsic_timesteps s :
  flows (trace s) →
  wp (intrinsic_phase perform fuel intrinsic_timesteps)
    (fun _ s' => flows (trace s')) flowing s.
Proof.
  intros Hs. unfold intrinsic_phase. wp_walk flow.
  eapply wp_mono; [apply intrinsic_loop_flows; flow| |done].
  intros ? s' Hs'. cbv beta. wp_walk flow.
Qed.

Lemma setup_flows Controller intrinsic_timesteps extrinsic_timesteps
    visualize goals_dataset_path s :
  flows (trace s) →
  wp (setup perform Controller intrinsic_timesteps extrinsic_timesteps
        visualize goals_dataset_path)
    (fun _ s' => flows (trace s')) flowing s.
Proof. intros Hs. unfold setup. wp_walk flow. Qed.

Lemma evaluate_flows fuel Controller intrinsic_timesteps extrinsic_timesteps
    extrinsic_trials visualize goals_dataset_path (w : World) :
  flows (trace (evaluate perform fuel Controller intrinsic_timesteps
                  extrinsic_timesteps extrinsic_trials visualize
                  goals_dataset_path (initial_state w)).2).
Proof.
  cut (wp (evaluate perform fuel Controller intrinsic_timesteps
             extrinsic_timesteps extrinsic_trials visualize goals_dataset_path)
         (fun _ s' => flows (trace s')) flowing (initial_state w)).
  { intros H%wp_run. by destruct (evaluate _ _ _ _ _ _ _ _ _).1. }
  unfold evaluate. wp_step.
  eapply wp_mono; [apply setup_flows, flows_nil| |done].
  intros ? s1 Hs1. cbv beta. wp_walk flow.
  eapply wp_mono; [apply intrinsic_phase_flows; flow| |done].
  intros ? s2 Hs2. cbv beta.
  by apply extrinsic_phase_flows.
Qed.

(** X10. In every run, finished or not, each [controller.step] is handed
    the observation and the reward the environment answered last (those
    of the last [env.step], or the observation of the last [env.reset]
    with reward 0), and each [env.step] is handed the action the last
    [controller.step] answered. *)
Theorem step_loops_hand_on_answers fuel Controller intrinsic_timesteps
    extrinsic_timesteps extrinsic_trials visualize goals_dataset_path (w : World) :
  let tr :=
    trace (evaluate perform fuel Controller intrinsic_timesteps
             extrinsic_timesteps extrinsic_trials visualize
             goals_dataset_path (initial_state w)).2 in
  (∀ before observation reward done answer after,
     tr = before ++ Ev (controller_step observation reward done) answer :: after →
     last_feedback before = Some (observation, reward))
  ∧ (∀ before action answer after,
       tr = before ++ Ev (env_step action) answer :: after →
       last_action before = Some action).
Proof.
  intros tr.
  pose proof (evaluate_flows fuel Controller intrinsic_timesteps
                extrinsic_timesteps extrinsic_trials visualize
                goals_dataset_path w) as Hflows.
  fold tr in Hflows. split.
  - intros before observation reward done answer after Htr.
    exact (Hflows _ _ _ Htr).
  - intros before action answer after Htr. exact (Hflows _ _ _ Htr).
Qed.

End DataFlow.

(** * A loop does not end by itself *)

Section NeverDone.

Context {World Obs Action : Type}.
Variable perform : forall X : Type, Call Obs Action X -> World -> (exn + X) * World.

Implicit Types (s : State World Obs Action) (tr : list (Event Obs Action)).

Lemma intrinsic_loop_endless (I : World -> Prop) fuel observation reward steps s :
  never_done perform I →
  I (world s) →
  ∃ s',
    intrinsic_loop perform fuel observation reward false steps s = (OutOfFuel, s')
    ∧ count is_controller_step (trace s')
      = (count is_controller_step (trace s) + fuel)%nat.
Proof.
  intros Hnever. revert observation reward steps s.
  induction fuel as [|fuel IH]; intros observation reward steps s Hw.
  - exists s. split; [done | lia].
  - destruct (Hnever _ observation reward Hw)
      as (action & w1 & observation' & reward' & w2 & Hc & He & Hw2).
    cbn [intrinsic_loop]. unfold bind at 1. unfold call at 1. rewrite Hc.
    unfold bind at 1. unfold call at 1.
    cbn [world record trace scores evaluation_state]. rewrite He.
    unfold bind at 1. unfold emit at 1.
    cbn [world record trace scores evaluation_state].
    match goal with
    | |- context [intrinsic_loop _ _ _ _ _ _ ?s1] =>
        destruct (IH observation' reward' (steps + 1)%nat s1)
          as (s' & Hloop & Hcount); [exact Hw2|]
    end.
    exists s'. split; [exact Hloop|].
    rewrite Hcount. cbn [trace record world scores evaluation_state].
    rewrite !count_snoc. cbn. lia.
Qed.

(** X11. The orchestrator never ends the intrinsic loop by itself: with
    collaborators that never signal [done], the intrinsic phase is still
    running after any number of rounds, whatever positive budget was
    configured. *)
Theorem intrinsic_loop_is_not_bounded (I : World -> Prop) fuel
    intrinsic_timesteps s observation w1 w2 :
  positive_budget intrinsic_timesteps = true →
  perform _ env_reset (world s) = (inr observation, w1) →
  perform _ start_intrinsic_phase w1 = (inr tt, w2) →
  never_done perform I →
  I w2 →
  let run := intrinsic_phase perform fuel intrinsic_timesteps s in
  run.1 = OutOfFuel
  ∧ count is_controller_step (trace run.2)
    = (count is_controller_step (trace s) + fuel)%nat.
Proof.
  intros Hpos Hreset Hstart Hnever Hw2.
  unfold intrinsic_phase. rewrite Hpos.
  unfold banner, bind, call, emit, record.
  cbn [world trace scores evaluation_state]. rewrite Hreset.
  cbn [world trace scores evaluation_state]. rewrite Hstart.
  cbn [world trace scores evaluation_state].
  match goal with
  | |- context [intrinsic_loop _ _ _ _ _ _ ?s1] =>
      destruct (intrinsic_loop_endless I fuel observation 0 0 s1 Hnever)
        as (s' & Hloop & Hcount); [exact Hw2|]
  end.
  rewrite Hloop. cbn [fst snd]. split; [done|].
  rewrite Hcount. cbn [trace record world scores evaluation_state].
  rewrite !count_snoc. cbn. lia.
Qed.

End NeverDone.

(** * A trial runs until done *)

Section TrialUntilDone.

Context {World Obs Action : Type}.
Variable perform : forall X : Type, Call Obs Action X -> World -> (exn + X) * World.

Implicit Types (s : State World Obs Action) (tr : list (Event Obs Action)).

Lemma extrinsic_loop_done fuel k observation reward s :
  extrinsic_loop perform fuel k observation reward true s
  = (Returned (observation, reward, true), s).
Proof. by destruct fuel. Qed.

Lemma extrinsic_loop_until_done n fuel k observation reward s :
  done_after perform n (world s) observation reward →
  (n ≤ fuel)%nat →
  ∃ observation' reward' s',
    extrinsic_loop perform fuel k observation reward false s
    = (Returned (observation', reward', true), s')
    ∧ count is_controller_step (trace s')
      = (count is_controller_step (trace s) + n)%nat
    ∧ count is_env_step (trace s') = (count is_env_step (trace s) + n)%nat
    ∧ hooks (trace s') = hooks (trace s).
Proof.
  revert fuel observation reward s.
  induction n as [|n IH]; intros fuel observation reward s Hdone Hfuel; [done|].
  destruct fuel as [|fuel]; [lia|].
  destruct Hdone as (action & w1 & observation' & reward' & done' & w2
                     & Hc & He & Hrest).
  cbn [extrinsic_loop]. unfold bind at 1. unfold call at 1. rewrite Hc.
  unfold bind at 1. unfold call at 1.
  cbn [world record trace scores evaluation_state]. rewrite He.
  unfold bind at 1. unfold emit at 1.
  cbn [world record trace scores evaluation_state].
  destruct done'.
  - subst n. rewrite extrinsic_loop_done. eexists _, _, _. split; [done|].
    cbn [trace record world scores evaluation_state].
    rewrite !count_snoc, !hooks_snoc. cbn. rewrite !app_nil_r.
    repeat split; lia.
  - match goal with
    | |- context [extrinsic_loop _ _ _ _ _ _ ?s1] =>
        destruct (IH fuel observation' reward' s1)
          as (o' & r' & s' & Hloop & Hcs & Hes & Hhooks); [exact Hrest | lia |]
    end.
    rewrite Hloop. eexists _, _, _. split; [done|].
    rewrite Hcs, Hes, Hhooks.
    cbn [trace record world scores evaluation_state].
    rewrite !count_snoc, !hooks_snoc. cbn. rewrite !app_nil_r.
    repeat split; lia.
Qed.

(** X13. An extrinsic trial runs until the environment signals [done],
    whatever [extrinsic_timesteps] is: after reset, set_goal and
    [start_extrinsic_trial], when [done] first comes at the [n]-th step
    the trial makes exactly [n] rounds of [controller.step] / [env.step]
    and then calls [end_extrinsic_trial]. *)
Theorem extrinsic_trial_runs_until_done fuel k n s observation w1 w2 w3 :
  perform _ env_reset (world s) = (inr observation, w1) →
  perform _ env_set_goal w1 = (inr tt, w2) →
  perform _ start_extrinsic_trial w2 = (inr tt, w3) →
  done_after perform n w3 observation 0 →
  (n ≤ fuel)%nat →
  let s' := (extrinsic_trial perform fuel k s).2 in
  count is_controller_step (trace s')
  = (count is_controller_step (trace s) + n)%nat
  ∧ count is_env_step (trace s') = (count is_env_step (trace s) + n)%nat
  ∧ ∃ rest,
      hooks (trace s')
      = hooks (trace s)
        ++ [h_reset; h_set_goal; h_start_extrinsic_trial; h_end_extrinsic_trial]
        ++ rest.
Proof.
  intros Hreset Hgoal Hstart Hdone Hfuel.
  remember (extrinsic_trial perform fuel k s) as run eqn:Hrun.
  cbv zeta. unfold extrinsic_trial in Hrun.
  unfold bind at 1 in Hrun. unfold call at 1 in Hrun. rewrite Hreset in Hrun.
  unfold bind at 1 in Hrun. unfold call at 1 in Hrun.
  cbn [world record trace scores evaluation_state] in Hrun. rewrite Hgoal in Hrun.
  unfold bind at 1 in Hrun. unfold call at 1 in Hrun.
  cbn [world record trace scores evaluation_state] in Hrun. rewrite Hstart in Hrun.
  unfold bind at 1 in Hrun. unfold emit at 1 in Hrun.
  cbn [world record trace scores evaluation_state] in Hrun.
  unfold bind at 1 in Hrun.
  match type of Hrun with
  | context [extrinsic_loop _ _ _ _ _ _ ?s1] =>
      destruct (extrinsic_loop_until_done n fuel k observation 0 s1)
        as (o' & r' & s2 & Hloop & Hcs & Hes & Hhooks);
        [exact Hdone | exact Hfuel |]
  end.
  rewrite Hloop in Hrun.
  cbn [trace record world scores evaluation_state] in Hcs, Hes, Hhooks.
  rewrite !count_snoc in Hcs, Hes. rewrite !hooks_snoc in Hhooks.
  cbn in Hcs, Hes, Hhooks. rewrite !app_nil_r in Hhooks.
  unfold bind at 1 in Hrun. unfold call at 1 in Hrun.
  destruct (perform _ end_extrinsic_trial (world s2)) as [[e|[]] w4].
  - subst run. cbn [snd trace record]. rewrite !count_snoc, hooks_snoc. cbn.
    split; [lia|]. split; [lia|]. exists [].
    rewrite Hhooks, <- !app_assoc. done.
  - unfold bind at 1 in Hrun. unfold emit at 1 in Hrun.
    unfold bind at 1 in Hrun. unfold emit at 1 in Hrun.
    unfold bind at 1 in Hrun. unfold call at 1 in Hrun.
    cbn [world record trace scores evaluation_state] in Hrun.
    destruct (perform _ env_evaluateGoal w4) as [[e|[challenge score]] w5].
    + subst run. cbn [snd trace record]. rewrite !count_snoc, !hooks_snoc. cbn.
      split; [lia|]. split; [lia|]. eexists.
      rewrite !app_nil_r, Hhooks, <- !app_assoc. cbn. done.
    + unfold bind at 1 in Hrun. unfold on_scores at 1 in Hrun.
      rewrite add_scores_eq in Hrun.
      unfold bind at 1 in Hrun. unfold on_scores at 1 in Hrun.
      cbn [world record trace scores evaluation_state] in Hrun.
      rewrite build_score_object_eq in Hrun. unfold emit in Hrun.
      subst run.
      cbn [snd trace record]. rewrite !count_snoc, !hooks_snoc. cbn.
      split; [lia|]. split; [lia|]. eexists.
      rewrite !app_nil_r, Hhooks, <- !app_assoc. cbn. done.
Qed.

End TrialUntilDone.

(** * Concrete runs for the further properties *)

Section MoreConcrete.

Local Open Scope nat_scope.

(** The two "2D" results are grouped, in order, under "2D". *)
Lemma run_ledger_groups_by_label_witness :
  ∃ scores : Ledger.t,
    record_results true three_results ∅ = (Some tt, scores)
    ∧ scores !! "2D"%string = Some [1; Qc_of_Z 3]%Qc
    ∧ scores !! "2.5D"%string = None.
Proof.
  destruct (run_ledger_groups_by_label true three_results) as (scores & Hrun & Hkeys).
  exists scores. split; [exact Hrun|]. split.
  - apply (proj2 (Hkeys "2D"%string)). discriminate.
  - apply (proj1 (Hkeys "2.5D"%string)). reflexivity.
Defined.

(** An empty "2D" sequence. *)
Lemma empty_sequence_gives_nan_witness :
  ∃ so : ScoreObject,
    build_score_object {[ "2D"%string := [] ]} = (Some so, {[ "2D"%string := [] ]})
    ∧ so !! "score_2D"%string = Some NaN
    ∧ so !! "score_total"%string = Some NaN.
Proof.
  destruct (empty_sequence_gives_nan {[ "2D"%string := [] ]} "2D")
    as (so & Hso & Hlabel & Htotal).
  - repeat constructor.
  - reflexivity.
  - exists so. split; [exact Hso|]. split; [exact Hlabel | exact Htotal].
Defined.

(** Results under a label "4D" change nothing. *)
Lemma other_labels_ignored_witness :
  (build_score_object (<["4D"%string := [1%Qc]]> {[ "2D"%string := [1%Qc] ]})).1
  = (build_score_object {[ "2D"%string := [1%Qc] ]}).1.
Proof.
  apply other_labels_ignored.
  intros Hin. apply list_elem_of_In in Hin. cbn in Hin.
  destruct Hin as [H|[H|[H|[]]]]; discriminate H.
Defined.

Lemma zero_trials_returns : ∃ so, zero_trials.1 = Returned so.
Proof. eexists. vm_compute. reflexivity. Qed.

Lemma with_intrinsic_phase_returns : ∃ so, with_intrinsic_phase.1 = Returned so.
Proof. eexists. vm_compute. reflexivity. Qed.

(** The run of two trials has scored two "2D" results of 1. *)
Lemma evaluate_returns_aggregate_witness :
  goals (trace two_trials.2) = [("2D"%string, 1%Qc); ("2D"%string, 1%Qc)]
  ∧ ∃ (so : ScoreObject) (scores : Ledger.t),
      two_trials.1 = Returned so
      ∧ record_results false (goals (trace two_trials.2)) ∅ = (Some tt, scores)
      ∧ build_score_object scores = (Some so, scores).
Proof.
  split; [vm_compute; reflexivity|].
  destruct two_trials_returns as [so Hso].
  destruct (evaluate_returns_aggregate Toy.perform 10 Toy.BasePolicy_subclass
              (BInt 0) 2000 2 false "./goals.npy.npz" (Toy.start 2 None)
              so two_trials.2 (run_returned _ _ _ Hso))
    as (_ & scores & Hrun & Hbuild).
  exists so, scores. split; [exact Hso|]. split; [exact Hrun | exact Hbuild].
Defined.

(** A budget of 5 enters the intrinsic phase once, before the extrinsic
    phase. *)
Lemma phases_run_once_in_order_witness :
  occurrences h_start_intrinsic_phase (hooks (trace with_intrinsic_phase.2)) = 1
  ∧ occurrences h_end_intrinsic_phase (hooks (trace with_intrinsic_phase.2)) = 1
  ∧ occurrences h_start_extrinsic_phase (hooks (trace with_intrinsic_phase.2)) = 1.
Proof.
  destruct with_intrinsic_phase_returns as [so Hso].
  destruct (phases_run_once_in_order Toy.perform 10 Toy.BasePolicy_subclass
              (BInt 5) 2000 1 false "./goals.npy.npz" (Toy.start 2 None)
              so with_intrinsic_phase.2 (run_returned _ _ _ Hso))
    as (_ & Hstart & Hend & Hextrinsic).
  split; [exact Hstart|]. split; [exact Hend | exact Hextrinsic].
Defined.

(** No trial: the scores are 0 and [end_extrinsic_trial] is still called. *)
Lemma no_trials_scores_zero_witness :
  hooks (trace zero_trials.2) = [h_start_extrinsic_phase; h_end_extrinsic_trial]
  ∧ ∃ so : ScoreObject,
      zero_trials.1 = Returned so
      ∧ so !! "score_total"%string = Some (Fin 0%Qc).
Proof.
  destruct zero_trials_returns as [so Hso].
  destruct (no_trials_scores_zero Toy.perform 10 Toy.BasePolicy_subclass
              (BInt 0) 2000 0 false "./goals.npy.npz" (Toy.start 2 None)
              so zero_trials.2 ltac:(lia) (run_returned _ _ _ Hso))
    as (Hhooks & _ & _ & _ & _ & Htotal).
  split; [exact Hhooks|]. exists so. split; [exact Hso | exact Htotal].
Defined.

(** Without [visualize], the run of two trials makes five set-up calls. *)
Lemma setup_calls_of_a_run_witness :
  setup_calls (trace two_trials.2)
  = [s_gym_make "REALRobot-v0"; s_set_goals_dataset_path "./goals.npy.npz";
     s_new_controller; s_set_intrinsic_timesteps (BInt 0);
     s_set_extrinsic_timesteps 2000].
Proof.
  destruct two_trials_returns as [so Hso].
  exact (setup_calls_of_a_run Toy.perform 10 Toy.BasePolicy_subclass
           (BInt 0) 2000 2 false "./goals.npy.npz" (Toy.start 2 None)
           so two_trials.2 (run_returned _ _ _ Hso)).
Defined.

(** The second [controller.step] of the first trial is handed what the
    first [env.step] answered: observation 1 and reward 1. *)
Lemma step_loops_hand_on_answers_witness :
  let tr := trace two_trials.2 in
  tr = take 18 tr ++ Ev (controller_step 1 1%Qc false) (inr 0) :: drop 19 tr
  ∧ last_feedback (take 18 tr) = Some (1, 1%Qc).
Proof.
  intros tr.
  assert (Htr : tr = take 18 tr
                  ++ Ev (controller_step 1 1%Qc false) (inr 0) :: drop 19 tr)
    by (vm_compute; reflexivity).
  split; [exact Htr|].
  exact (proj1 (step_loops_hand_on_answers Toy.perform 10
                  Toy.BasePolicy_subclass (BInt 0) 2000 2 false
                  "./goals.npy.npz" (Toy.start 2 None))
           _ _ _ _ _ _ Htr).
Defined.

Lemma forever_never_done : never_done Forever.perform (fun _ => True).
Proof. intros w observation reward _. by eexists _, _, _, _, _. Qed.

(** With a budget of 3 and an environment that never signals [done], the
    intrinsic phase is still running after 7 rounds. *)
Lemma intrinsic_loop_is_not_bounded_witness :
  let run := intrinsic_phase Forever.perform 7 (BInt 3) (initial_state 0) in
  run.1 = OutOfFuel ∧ count is_controller_step (trace run.2) = 7.
Proof.
  exact (intrinsic_loop_is_not_bounded Forever.perform (fun _ => True) 7
           (BInt 3) (initial_state 0) 0 0 0 eq_refl eq_refl eq_refl
           forever_never_done I).
Defined.

(** A trial of the toy world, whose episodes last two steps. *)
Lemma extrinsic_trial_runs_until_done_witness :
  let s' := (extrinsic_trial Toy.perform 5 0 (initial_state (Toy.start 2 None))).2 in
  count is_controller_step (trace s') = 2
  ∧ count is_env_step (trace s') = 2.
Proof.
  destruct (extrinsic_trial_runs_until_done Toy.perform 5 0 2
              (initial_state (Toy.start 2 None)) 0
              (Toy.mkWorld 2 None 1 0) (Toy.mkWorld 2 None 1 0)
              (Toy.mkWorld 2 None 1 0))
    as (Hc & He & _).
  - reflexivity.
  - reflexivity.
  - reflexivity.
  - vm_compute.
    eexists _, _, _, _, _, _. split; [reflexivity|]. split; [reflexivity|].
    cbv beta iota.
    eexists _, _, _, _, _, _. split; [reflexivity|]. split; reflexivity.
  - lia.
  - split; [exact Hc | exact He].
Defined.

End MoreConcrete.

(** * The scores of the score object, spelled out *)

Section Scores.

Implicit Types (scores : Ledger.t) (key : string) (results : list Qc).







End Scores.

(** * The aggregator over binary64 scores *)

Section Rounding.

Variable np_mean : list float -> float.

Implicit Types (scores : Binary64.t) (key : string) (v : float).





End Rounding.

Section RoundingExamples.



(** X5. A mean of binary64 scores can leave the range of the scores:
    three "2D" trials that each score 0.1 aggregate to
    0.10000000000000002, which is greater than 0.1. *)
Theorem mean_can_leave_the_range :
  ∃ score : float,
    Binary64.build_score_object Binary64.mean_in_order
      (Binary64.record_results
         [("2D"%string, one_tenth); ("2D"%string, one_tenth);
          ("2D"%string, one_tenth)] ∅)
      !! "score_2D"%string = Some score
    ∧ score = 0x1.999999999999bp-4%float
    ∧ PrimFloat.ltb one_tenth score = true.
Proof.
  eexists. split; [vm_compute; reflexivity|].
  split; vm_compute; reflexivity.
Qed.

(** X6. The score object depends on the order of the trials: the scores
    0.1, 0.2 and 0.3 under "2D" aggregate to 0.20000000000000004, and the
    same scores in the reverse order to 0.19999999999999998. *)
Theorem trial_order_changes_the_mean :
  ∃ score score' : float,
    Binary64.build_score_object Binary64.mean_in_order
      (Binary64.record_results
         [("2D"%string, one_tenth); ("2D"%string, two_tenths);
          ("2D"%string, three_tenths)] ∅)
      !! "score_2D"%string = Some score
    ∧ Binary64.build_score_object Binary64.mean_in_order
        (Binary64.record_results
           [("2D"%string, three_tenths); ("2D"%string, two_tenths);
            ("2D"%string, one_tenth)] ∅)
        !! "score_2D"%string = Some score'
    ∧ score = 0x1.999999999999bp-3%float
    ∧ score' = 0x1.9999999999999p-3%float
    ∧ PrimFloat.eqb score score' = false.
Proof.
  eexists _, _. split; [vm_compute; reflexivity|].
  split; [vm_compute; reflexivity|].
  repeat split; vm_compute; reflexivity.
Qed.

End RoundingExamples.
